(** * The conversation hook of florisagent (frontend/utils/useConversation.js)

    A shallow embedding of [useConversation]: the hook's refs and React
    state become one record, every callback of the hook becomes a
    computation in a small state/exception/output monad, and the browser
    (event loop, WebSocket, Audio element, axios promises, the
    voice-stream library) becomes a deterministic [step] function that
    delivers one event at a time to the callback the source registered
    for it. *)

From Stdlib Require Import ZArith Lia.
From stdpp Require Import base list strings.

Local Open Scope string_scope.
Local Open Scope list_scope.
#[local] Set Warnings "-register-all".
#[local] Set Warnings "-notation-incompatible-prefix".
#[local] Set Warnings "-notation-overridden".
#[local] Set Warnings "-notation-for-abbreviation".

(** ** JavaScript values

    The values the hook handles all come out of [JSON.parse], axios or the
    UI, so a JSON tree plus [undefined] is enough.  JSON numbers are kept
    integral. *)

Inductive value :=
| VUndefined
| VNull
| VBool (b : bool)
| VNum (n : Z)
| VStr (s : string)
| VArr (items : list value)
| VObj (fields : list (string * value)).

(** [if (v)], [!v] *)
Definition truthy (v : value) : bool :=
  match v with
  | VUndefined | VNull => false
  | VBool b => b
  | VNum n => negb (n =? 0)%Z
  | VStr s => negb (String.eqb s "")
  | VArr _ | VObj _ => true
  end.

(** [v === 'lit'] *)
Definition is_str (v : value) (lit : string) : bool :=
  match v with
  | VStr s => String.eqb s lit
  | _ => false
  end.

(** Own property [k] of an object literal; [JSON.parse] keeps the last of
    two equal keys. *)
Fixpoint field (k : string) (fs : list (string * value)) : option value :=
  match fs with
  | [] => None
  | (k', v) :: rest =>
      match field k rest with
      | Some w => Some w
      | None => if String.eqb k k' then Some v else None
      end
  end.

Inductive Exn :=
| SyntaxError
| TypeError
| InvalidStateError
| Error (msg : string)
| RequestFailed
| CaptureFailed.

Inductive Res (A : Type) :=
| Ok (a : A)
| Thrown (e : Exn).
Arguments Ok {A} a.
Arguments Thrown {A} e.

(** [v.k]: a TypeError on [null] and [undefined], [undefined] where the
    property is absent.  None of the names the hook reads is a built-in
    property of a string, number, boolean or array. *)
Definition get_prop (v : value) (k : string) : Res value :=
  match v with
  | VUndefined | VNull => Thrown TypeError
  | VObj fs => Ok (default VUndefined (field k fs))
  | _ => Ok VUndefined
  end.

(** [v?.k] *)
Definition get_prop_opt (v : value) (k : string) : value :=
  match get_prop v k with
  | Ok w => w
  | Thrown _ => VUndefined
  end.

Definition is_undefined (v : value) : bool :=
  match v with VUndefined => true | _ => false end.

(** [JSON.stringify({k1: v1, ...})], kept as the value the peer parses:
    properties whose value is [undefined] are left out. *)
Definition JSON_stringify (fs : list (string * value)) : value :=
  VObj (List.filter (fun kv => negb (is_undefined (snd kv))) fs).

(** [event.data] of a socket frame, as [JSON.parse] sees it. *)
Inductive FrameData :=
| Text (parsed : value)
| Garbage (raw : string).

Definition JSON_parse (d : FrameData) : Res value :=
  match d with
  | Text v => Ok v
  | Garbage _ => Thrown SyntaxError
  end.

(** ** Session state *)

Inductive Role := user | agent.

Record Message := mkMessage { role : Role; text : value }.

Inductive ReadyState := CONNECTING | OPEN | CLOSING | CLOSED.

Record WebSocket := mkWebSocket { url : value; readyState : ReadyState }.

Inductive AudioStatus := Playing | Ended | Rejected.

(** An [Audio] element made by [maybePlayNextAudio]; its [src] is the data
    URL built from [fragment]. *)
Record Audio := mkAudio { fragment : value; status : AudioStatus }.

(** The hook's [useState] cells and refs, followed by the browser objects
    they point to and the promises the hook is awaiting.  ([mediaStreamRef]
    is declared by the hook and never read or written.) *)
Record Session := mkSession {
  messages : list Message;
  isRecording : bool;
  isConnected : bool;
  websocketRef : option nat;
  audioQueueRef : list value;
  isAudioPlayingRef : bool;
  sockets : list WebSocket;
  audios : list Audio;
  pendingSignedUrl : nat;
  pendingTts : nat;
  pendingStartStreaming : nat
}.

Definition init : Session :=
  mkSession [] false false None [] false [] [] 0 0 0.

(** What the hook does to the outside world, in program order. *)
Inductive Effect :=
| HttpGet (path : string)
| HttpPost (path : string) (body : value)
| NewWebSocket (ws : nat) (u : value)
| WsSend (ws : nat) (frame : value)
| WsClose (ws : nat)
| StartStreaming
| StopStreaming
| AudioPlay (k : nat) (fragment : value)
| ConsoleError (msg : string) (e : Exn)
| Uncaught (e : Exn).

(** ** The monad of callbacks: state, exceptions, emitted effects *)

Definition M (A : Type) : Type := Session -> Res A * Session * list Effect.

Definition ret {A} (a : A) : M A := fun s => (Ok a, s, []).

Definition bind {A B} (m : M A) (f : A -> M B) : M B :=
  fun s =>
    match m s with
    | (Ok a, s1, t1) => let '(r, s2, t2) := f a s1 in (r, s2, t1 ++ t2)
    | (Thrown e, s1, t1) => (Thrown e, s1, t1)
    end.

Definition throw {A} (e : Exn) : M A := fun s => (Thrown e, s, []).

Definition try_catch {A} (m : M A) (h : Exn -> M A) : M A :=
  fun s =>
    match m s with
    | (Ok a, s1, t1) => (Ok a, s1, t1)
    | (Thrown e, s1, t1) => let '(r, s2, t2) := h e s1 in (r, s2, t1 ++ t2)
    end.

Definition lift {A} (r : Res A) : M A := fun s => (r, s, []).
Definition gets {A} (f : Session -> A) : M A := fun s => (Ok (f s), s, []).
Definition modify (f : Session -> Session) : M unit := fun s => (Ok tt, f s, []).
Definition emit (e : Effect) : M unit := fun s => (Ok tt, s, [e]).

Declare Scope hook_scope.
Delimit Scope hook_scope with hook.
Notation "'do' x <- m ; k" := (bind m (fun x => k))
  (at level 10, x name, m at level 100, k at level 200) : hook_scope.
Notation "m >> k" := (bind m (fun _ => k))
  (at level 100, k at level 200, right associativity) : hook_scope.
Local Open Scope hook_scope.

(** Field updates. *)
Definition with_messages (f : list Message -> list Message) (s : Session) :=
  mkSession (f (messages s)) (isRecording s) (isConnected s) (websocketRef s)
    (audioQueueRef s) (isAudioPlayingRef s) (sockets s) (audios s)
    (pendingSignedUrl s) (pendingTts s) (pendingStartStreaming s).
Definition with_isRecording (b : bool) (s : Session) :=
  mkSession (messages s) b (isConnected s) (websocketRef s)
    (audioQueueRef s) (isAudioPlayingRef s) (sockets s) (audios s)
    (pendingSignedUrl s) (pendingTts s) (pendingStartStreaming s).
Definition with_isConnected (b : bool) (s : Session) :=
  mkSession (messages s) (isRecording s) b (websocketRef s)
    (audioQueueRef s) (isAudioPlayingRef s) (sockets s) (audios s)
    (pendingSignedUrl s) (pendingTts s) (pendingStartStreaming s).
Definition with_websocketRef (r : option nat) (s : Session) :=
  mkSession (messages s) (isRecording s) (isConnected s) r
    (audioQueueRef s) (isAudioPlayingRef s) (sockets s) (audios s)
    (pendingSignedUrl s) (pendingTts s) (pendingStartStreaming s).
Definition with_audioQueueRef (q : list value) (s : Session) :=
  mkSession (messages s) (isRecording s) (isConnected s) (websocketRef s)
    q (isAudioPlayingRef s) (sockets s) (audios s)
    (pendingSignedUrl s) (pendingTts s) (pendingStartStreaming s).
Definition with_isAudioPlayingRef (b : bool) (s : Session) :=
  mkSession (messages s) (isRecording s) (isConnected s) (websocketRef s)
    (audioQueueRef s) b (sockets s) (audios s)
    (pendingSignedUrl s) (pendingTts s) (pendingStartStreaming s).
Definition with_sockets (f : list WebSocket -> list WebSocket) (s : Session) :=
  mkSession (messages s) (isRecording s) (isConnected s) (websocketRef s)
    (audioQueueRef s) (isAudioPlayingRef s) (f (sockets s)) (audios s)
    (pendingSignedUrl s) (pendingTts s) (pendingStartStreaming s).
Definition with_audios (f : list Audio -> list Audio) (s : Session) :=
  mkSession (messages s) (isRecording s) (isConnected s) (websocketRef s)
    (audioQueueRef s) (isAudioPlayingRef s) (sockets s) (f (audios s))
    (pendingSignedUrl s) (pendingTts s) (pendingStartStreaming s).
Definition with_pendingSignedUrl (f : nat -> nat) (s : Session) :=
  mkSession (messages s) (isRecording s) (isConnected s) (websocketRef s)
    (audioQueueRef s) (isAudioPlayingRef s) (sockets s) (audios s)
    (f (pendingSignedUrl s)) (pendingTts s) (pendingStartStreaming s).
Definition with_pendingTts (f : nat -> nat) (s : Session) :=
  mkSession (messages s) (isRecording s) (isConnected s) (websocketRef s)
    (audioQueueRef s) (isAudioPlayingRef s) (sockets s) (audios s)
    (pendingSignedUrl s) (f (pendingTts s)) (pendingStartStreaming s).
Definition with_pendingStartStreaming (f : nat -> nat) (s : Session) :=
  mkSession (messages s) (isRecording s) (isConnected s) (websocketRef s)
    (audioQueueRef s) (isAudioPlayingRef s) (sockets s) (audios s)
    (pendingSignedUrl s) (pendingTts s) (f (pendingStartStreaming s)).

(** ** Browser primitives the hook calls *)

(** [setMessages((prev) => [...prev, m])] *)
Definition setMessages_append (m : Message) : M unit :=
  modify (with_messages (fun prev => prev ++ [m])).
Definition setIsRecording (b : bool) : M unit := modify (with_isRecording b).
Definition setIsConnected (b : bool) : M unit := modify (with_isConnected b).

(** [ws.readyState].  Socket ids are handed out by [new WebSocket] and
    never withdrawn, so the lookup of a held id succeeds. *)
Definition readyState_of (ws : nat) (s : Session) : ReadyState :=
  default CLOSED (readyState <$> sockets s !! ws).

Definition set_readyState (ws : nat) (st : ReadyState) : Session -> Session :=
  with_sockets (fun l =>
    match l !! ws with
    | Some w => <[ws := mkWebSocket (url w) st]> l
    | None => l
    end).

(** [ws.send(frame)]: throws while the socket is still connecting, hands
    the frame to the network when it is open, and discards it silently
    once the socket is closing or closed. *)
Definition ws_send (ws : nat) (frame : value) : M unit :=
  do st <- gets (readyState_of ws);
  match st with
  | CONNECTING => throw InvalidStateError
  | OPEN => emit (WsSend ws frame)
  | CLOSING | CLOSED => ret tt
  end.

(** [ws.close()]: starts the closing handshake of a socket that is
    connecting or open, does nothing otherwise. *)
Definition ws_close (ws : nat) : M unit :=
  do st <- gets (readyState_of ws);
  match st with
  | CONNECTING | OPEN => modify (set_readyState ws CLOSING) >> emit (WsClose ws)
  | CLOSING | CLOSED => ret tt
  end.

(** [startStreaming()] and [stopStreaming()] of the voice-stream library:
    calls into the library, recorded as effects. *)
Definition stopStreaming : M unit := emit StopStreaming.
Definition startStreaming_call : M unit :=
  emit StartStreaming >> modify (with_pendingStartStreaming S).

Definition console_error (msg : string) (e : Exn) : M unit :=
  emit (ConsoleError msg e).

(** ** The hook's callbacks *)

(** [onAudioChunked], lines 27-35. *)
Definition onAudioChunked (audioData : string) : M unit :=
  do ws <- gets websocketRef;
  match ws with
  | None => ret tt
  | Some w =>
      do st <- gets (readyState_of w);
      match st with
      | OPEN => ws_send w (JSON_stringify [("user_audio_chunk", VStr audioData)])
      | _ => ret tt
      end
  end.

(** [new Audio(src)] followed by [audio.play()]: the element is
    [Playing] until the platform reports [ended] or rejects the promise. *)
Definition audio_play (next : value) : M unit :=
  do k <- gets (fun s => length (audios s));
  modify (with_audios (fun l => l ++ [mkAudio next Playing])) >>
  emit (AudioPlay k next).

(** [maybePlayNextAudio], lines 41-57.  [shift()] removes the head
    whether or not it is truthy. *)
Definition maybePlayNextAudio : M unit :=
  do playing <- gets isAudioPlayingRef;
  if playing then ret tt
  else
    do q <- gets audioQueueRef;
    match q with
    | [] => ret tt
    | next :: rest =>
        modify (with_audioQueueRef rest) >>
        if truthy next then
          modify (with_isAudioPlayingRef true) >> audio_play next
        else ret tt
    end.

(** [audio.onended], lines 47-50. *)
Definition audio_onended : M unit :=
  modify (with_isAudioPlayingRef false) >> maybePlayNextAudio.

(** The [catch] of [audio.play()], lines 51-55. *)
Definition audio_play_catch : M unit :=
  modify (with_isAudioPlayingRef false) >> maybePlayNextAudio.

(** [audioQueueRef.current.push(x)] *)
Definition audioQueue_push (x : value) : M unit :=
  do q <- gets audioQueueRef;
  modify (with_audioQueueRef (q ++ [x])).

(** [sendTextMessage] up to its [await], lines 153-159. *)
Definition sendTextMessage (text : value) : M unit :=
  if negb (truthy text) then ret tt
  else
    setMessages_append (mkMessage user text) >>
    emit (HttpPost "/api/tts" (JSON_stringify [("text", text)])) >>
    modify (with_pendingTts S).

(** How an axios promise settles: with the response body, or rejected
    (network error, non-2xx status). *)
Inductive Response :=
| Resolved (data : value)
| Failed.

Definition await (r : Response) : M value :=
  match r with
  | Resolved data => ret data
  | Failed => throw RequestFailed
  end.

(** [sendTextMessage] from the [await] on, lines 159-170. *)
Definition sendTextMessage_resumed (r : Response) : M unit :=
  try_catch
    (do data <- await r;
     do audioBase64 <- lift (get_prop data "audio");
     do format <- lift (get_prop data "format");
     if truthy audioBase64 then
       audioQueue_push audioBase64 >>
       maybePlayNextAudio >>
       setMessages_append (mkMessage agent (VStr "[audio]"))
     else ret tt)
    (fun e =>
       console_error "Failed to perform TTS:" e >>
       setMessages_append
         (mkMessage agent (VStr "Sorry, I could not process that."))).

(** [ws.onmessage], lines 87-119; [ws] is the socket the closure holds. *)
Definition onmessage (ws : nat) (event_data : FrameData) : M unit :=
  do data <- lift (JSON_parse event_data);
  do ty <- lift (get_prop data "type");
  if is_str ty "ping" then
    do ping_event <- lift (get_prop data "ping_event");
    do event_id <- lift (get_prop ping_event "event_id");
    ws_send ws (JSON_stringify [("type", VStr "pong"); ("event_id", event_id)])
  else
    (if is_str ty "user_transcript" then
       do ev <- lift (get_prop data "user_transcription_event");
       let text := get_prop_opt ev "user_transcript" in
       if truthy text then setMessages_append (mkMessage user text) else ret tt
     else ret tt) >>
    (if is_str ty "agent_response" then
       do ev <- lift (get_prop data "agent_response_event");
       let text := get_prop_opt ev "agent_response" in
       if truthy text then setMessages_append (mkMessage agent text) else ret tt
     else ret tt) >>
    (if is_str ty "audio" then
       do ev <- lift (get_prop data "audio_event");
       let base64Audio := get_prop_opt ev "audio_base_64" in
       if truthy base64Audio then
         audioQueue_push base64Audio >> maybePlayNextAudio
       else ret tt
     else ret tt).

(** [ws.onopen] up to its [await], lines 75-84. *)
Definition onopen (ws : nat) : M unit :=
  setIsConnected true >>
  ws_send ws
    (JSON_stringify [("type", VStr "conversation_initiation_client_data")]) >>
  startStreaming_call.

(** [ws.onopen] after [await startStreaming()], line 85. *)
Definition onopen_resumed (ok : bool) : M unit :=
  if ok then setIsRecording true else throw CaptureFailed.

(** [ws.onclose], lines 120-125. *)
Definition onclose : M unit :=
  modify (with_websocketRef None) >>
  setIsConnected false >>
  setIsRecording false >>
  stopStreaming.

(** [stopConversation], lines 135-144. *)
Definition stopConversation : M unit :=
  do ws <- gets websocketRef;
  (match ws with
   | Some w =>
       do st <- gets (readyState_of w);
       match st with
       | OPEN => ws_close w
       | _ => ret tt
       end
   | None => ret tt
   end) >>
  modify (with_websocketRef None) >>
  setIsConnected false >>
  setIsRecording false >>
  stopStreaming.

(** [startConversation] up to its [await], lines 65-69.  [isConnected] is
    read as of the latest render. *)
Definition startConversation : M unit :=
  do connected <- gets isConnected;
  if connected then ret tt
  else emit (HttpGet "/api/signed-url") >> modify (with_pendingSignedUrl S).

Inductive Event :=
| CallStartConversation
| CallStopConversation
| CallSendTextMessage (text : value)
| SignedUrlSettled (r : Response)
| TtsSettled (r : Response)
| SocketOpen (ws : nat)
| SocketMessage (ws : nat) (data : FrameData)
| SocketClose (ws : nat)
| StartStreamingSettled (ok : bool)
| MicFrame (audioData : string)
| AudioEnded (k : nat)
| PlayRejected (k : nat).

Definition status_of (k : nat) (s : Session) : option AudioStatus :=
  status <$> audios s !! k.

Definition set_status (k : nat) (st : AudioStatus) : Session -> Session :=
  with_audios (fun l =>
    match l !! k with
    | Some a => <[k := mkAudio (fragment a) st]> l
    | None => l
    end).

Definition is_OPEN (st : ReadyState) : bool :=
  match st with OPEN => true | _ => false end.
Definition is_CONNECTING (st : ReadyState) : bool :=
  match st with CONNECTING => true | _ => false end.
Definition is_CLOSED (st : ReadyState) : bool :=
  match st with CLOSED => true | _ => false end.
Definition is_Playing (st : option AudioStatus) : bool :=
  match st with Some Playing => true | _ => false end.

(** When the platform can deliver an event: a promise settles only while
    it is pending, a socket opens once, receives only while open and
    closes once, an audio element ends or fails only while it plays.  The
    UI and the microphone library may call at any time. *)
Definition enabled (ev : Event) (s : Session) : bool :=
  match ev with
  | CallStartConversation | CallStopConversation
  | CallSendTextMessage _ | MicFrame _ => true
  | SignedUrlSettled _ => negb (Nat.eqb (pendingSignedUrl s) 0)
  | TtsSettled _ => negb (Nat.eqb (pendingTts s) 0)
  | StartStreamingSettled _ => negb (Nat.eqb (pendingStartStreaming s) 0)
  | SocketOpen ws => is_CONNECTING (readyState_of ws s)
  | SocketMessage ws _ => is_OPEN (readyState_of ws s)
  | SocketClose ws => negb (is_CLOSED (readyState_of ws s))
  | AudioEnded k | PlayRejected k => is_Playing (status_of k s)
  end.

Section Platform.

(** Whether the [WebSocket] constructor accepts a URL (it throws a
    SyntaxError otherwise): the browser's URL parser, outside the
    repository. *)
Variable WebSocket_accepts : value -> bool.

(** [new WebSocket(u)] *)
Definition new_WebSocket (u : value) : M nat :=
  if WebSocket_accepts u then
    do ws <- gets (fun s => length (sockets s));
    modify (with_sockets (fun l => l ++ [mkWebSocket u CONNECTING])) >>
    emit (NewWebSocket ws u) >>
    ret ws
  else throw SyntaxError.

(** [startConversation] from the [await] on, lines 69-128.  The three
    handlers are installed on every socket made here; [step] dispatches
    to them. *)
Definition startConversation_resumed (r : Response) : M unit :=
  try_catch
    (do data <- await r;
     do signedUrl <- lift (get_prop data "signedUrl");
     if negb (truthy signedUrl) then throw (Error "Signed URL not provided")
     else
       do ws <- new_WebSocket signedUrl;
       modify (with_websocketRef (Some ws)))
    (fun e => console_error "Failed to start conversation:" e).

(** The platform's part of an event, then the callback registered for it. *)
Definition deliver (ev : Event) : M unit :=
  match ev with
  | CallStartConversation => startConversation
  | CallStopConversation => stopConversation
  | CallSendTextMessage text => sendTextMessage text
  | SignedUrlSettled r =>
      modify (with_pendingSignedUrl Nat.pred) >> startConversation_resumed r
  | TtsSettled r =>
      modify (with_pendingTts Nat.pred) >> sendTextMessage_resumed r
  | SocketOpen ws => modify (set_readyState ws OPEN) >> onopen ws
  | SocketMessage ws d => onmessage ws d
  | SocketClose ws => modify (set_readyState ws CLOSED) >> onclose
  | StartStreamingSettled ok =>
      modify (with_pendingStartStreaming Nat.pred) >> onopen_resumed ok
  | MicFrame audioData => onAudioChunked audioData
  | AudioEnded k => modify (set_status k Ended) >> audio_onended
  | PlayRejected k => modify (set_status k Rejected) >> audio_play_catch
  end.

(** One turn of the event loop.  An exception that escapes a callback is
    reported and the loop goes on with the state the callback left. *)
Definition step (ev : Event) (s : Session) : Session * list Effect :=
  if enabled ev s then
    match deliver ev s with
    | (Ok _, s', t) => (s', t)
    | (Thrown e, s', t) => (s', t ++ [Uncaught e])
    end
  else (s, []).

Fixpoint run (evs : list Event) (s : Session) : Session * list Effect :=
  match evs with
  | [] => (s, [])
  | ev :: rest =>
      let '(s1, t1) := step ev s in
      let '(s2, t2) := run rest s1 in
      (s2, t1 ++ t2)
  end.

End Platform.

(** ** The Playback Sequencer on its own

    The sequencer is the queue, the playing flag and the audio elements.
    A fragment reaches it through the pair
    [audioQueueRef.current.push(x); maybePlayNextAudio()] (lines 115-116
    and 163-164); the platform reaches it through [onended] and through
    the rejection of [play()]. *)
Inductive SeqEvent :=
| Enqueue (f : value)
| OnEnded (k : nat)
| PlayFailed (k : nat).

Definition seq_enabled (e : SeqEvent) (s : Session) : bool :=
  match e with
  | Enqueue _ => true
  | OnEnded k | PlayFailed k => is_Playing (status_of k s)
  end.

Definition seq_deliver (e : SeqEvent) : M unit :=
  match e with
  | Enqueue f => audioQueue_push f >> maybePlayNextAudio
  | OnEnded k => modify (set_status k Ended) >> audio_onended
  | PlayFailed k => modify (set_status k Rejected) >> audio_play_catch
  end.

Definition seq_step (e : SeqEvent) (s : Session) : Session :=
  if seq_enabled e s then snd (fst (seq_deliver e s)) else s.

Definition seq_run (evs : list SeqEvent) (s : Session) : Session :=
  foldl (fun s e => seq_step e s) s evs.

(** The fragments handed to the sequencer by a schedule, in order. *)
Definition enqueued (evs : list SeqEvent) : list value :=
  evs ≫= (fun e => match e with Enqueue f => [f] | _ => [] end).

(** The fragments whose playback has begun, in the order it began. *)
Definition started (s : Session) : list value := fragment <$> audios s.

Definition audio_is_playing (a : Audio) : bool :=
  match status a with Playing => true | _ => false end.

(** The audio elements playing right now, and how many have finished
    (ended or failed). *)
Definition playing_now (s : Session) : list Audio :=
  List.filter audio_is_playing (audios s).
Definition finished (s : Session) : nat :=
  length (List.filter (fun a => negb (audio_is_playing a)) (audios s)).

(** Every fragment that ever entered the sequencer, in arrival order. *)
Definition arrivals (s : Session) : list value := started s ++ audioQueueRef s.

Definition is_truthy (v : value) : Prop := truthy v = true.

Record SeqInv (s : Session) : Prop := mkSeqInv {
  inv_queue_truthy : Forall is_truthy (audioQueueRef s);
  inv_playing : isAudioPlayingRef s = true -> length (playing_now s) = 1%nat;
  inv_idle : isAudioPlayingRef s = false ->
             audioQueueRef s = [] /\ playing_now s = []
}.

(** ** Vocabulary for the statements *)

(** The channel is Active: the hook holds a socket and that socket is
    open. *)
Definition socket_active (s : Session) : bool :=
  match websocketRef s with
  | Some w => is_OPEN (readyState_of w s)
  | None => false
  end.

(** The session is Idle: no socket held, not connected, not recording. *)
Definition idle (s : Session) : Prop :=
  websocketRef s = None /\ isConnected s = false /\ isRecording s = false.

Definition live (st : ReadyState) : bool :=
  match st with CONNECTING | OPEN => true | CLOSING | CLOSED => false end.

(** No socket can still open or deliver a frame. *)
Definition no_live_socket (s : Session) : Prop :=
  Forall (fun w => live (readyState w) = false) (sockets s).

Definition is_user_call (ev : Event) : bool :=
  match ev with
  | CallStartConversation | CallSendTextMessage _ => true
  | _ => false
  end.


(** The effects a stopped conversation must not have. *)
Definition is_conversation_effect (e : Effect) : bool :=
  match e with
  | HttpGet _ | NewWebSocket _ _ | WsSend _ _ | StartStreaming => true
  | _ => false
  end.

(** A callback keeps a state property and emits only effects of one
    kind, whether it returns or throws. *)
Definition keeps (P : Session -> Prop) (E : Effect -> Prop) {A} (m : M A) : Prop :=
  forall s, P s -> P (snd (fst (m s))) /\ Forall E (snd (m s)).

(** The wire messages the hook exchanges with the agent, as parsed frames. *)
Definition ping_frame (event_id : value) : FrameData :=
  Text (VObj [("type", VStr "ping");
              ("ping_event", VObj [("event_id", event_id)])]).
Definition user_transcript_frame (t : value) : FrameData :=
  Text (VObj [("type", VStr "user_transcript");
              ("user_transcription_event", VObj [("user_transcript", t)])]).
Definition agent_response_frame (t : value) : FrameData :=
  Text (VObj [("type", VStr "agent_response");
              ("agent_response_event", VObj [("agent_response", t)])]).
Definition audio_frame (a : value) : FrameData :=
  Text (VObj [("type", VStr "audio");
              ("audio_event", VObj [("audio_base_64", a)])]).
Definition pong (event_id : value) : value :=
  VObj [("type", VStr "pong"); ("event_id", event_id)].
Definition user_audio_chunk (audioData : string) : value :=
  VObj [("user_audio_chunk", VStr audioData)].
Definition initiation : value :=
  VObj [("type", VStr "conversation_initiation_client_data")].

(** A browser that accepts ws: and wss: URLs given as strings. *)
Definition accepts_ws_urls (u : value) : bool :=
  match u with
  | VStr s => String.prefix "ws://" s || String.prefix "wss://" s
  | _ => false
  end.

Definition signed_url_body : value :=
  VObj [("signedUrl", VStr "wss://api.elevenlabs.io/v1/convai/conversation")].

(** The events that bring a fresh hook to the Active state. *)
Definition connect : list Event :=
  [CallStartConversation; SignedUrlSettled (Resolved signed_url_body);
   SocketOpen 0; StartStreamingSettled true].

Definition active_session : Session :=
  Eval vm_compute in fst (run accepts_ws_urls connect init).

(** Projections of a callback's outcome. *)
Definition result_of {A} (m : M A) (s : Session) : Res A := fst (fst (m s)).
Definition state_after {A} (m : M A) (s : Session) : Session := snd (fst (m s)).
Definition effects_of {A} (m : M A) (s : Session) : list Effect := snd (m s).

Definition user_message (t : value) : Message := mkMessage user t.
Definition agent_message (t : value) : Message := mkMessage agent t.
Definition audio_placeholder : Message := mkMessage agent (VStr "[audio]").
Definition failure_notice : Message :=
  mkMessage agent (VStr "Sorry, I could not process that.").

(** The hook holds no socket. *)
Definition no_socket_held (s : Session) : Prop := websocketRef s = None.

Definition any_effect (e : Effect) : Prop := True.

(** What holds of a session once the conversation has been stopped with
    nothing in flight: no socket is live, no request is pending, and the
    audio queue only shrinks from its front. *)
Definition stopped (q0 : list value) (s : Session) : Prop :=
  no_live_socket s
  /\ pendingSignedUrl s = 0%nat
  /\ pendingTts s = 0%nat
  /\ exists n, audioQueueRef s = drop n q0.

Definition not_conversation_effect (e : Effect) : Prop :=
  is_conversation_effect e = false.

(** ** Further vocabulary: what a callback may touch *)

(** The connection side of a session and its playback side. *)
Definition connection (s : Session)
  : option nat * bool * bool * list WebSocket :=
  (websocketRef s, isConnected s, isRecording s, sockets s).

Definition playback (s : Session)
  : list Message * list value * list Audio * bool :=
  (messages s, audioQueueRef s, audios s, isAudioPlayingRef s).

(** Events of the media side (frames, text fallback, playback, microphone)
    and events of the connection side. *)
Definition is_media_event (ev : Event) : bool :=
  match ev with
  | CallSendTextMessage _ | TtsSettled _ | SocketMessage _ _ | MicFrame _
  | AudioEnded _ | PlayRejected _ => true
  | _ => false
  end.

Definition is_connection_event (ev : Event) : bool :=
  match ev with
  | CallStartConversation | CallStopConversation | SignedUrlSettled _
  | SocketOpen _ | SocketClose _ | StartStreamingSettled _ | MicFrame _ => true
  | _ => false
  end.

Definition same_connection
    (c : option nat * bool * bool * list WebSocket) (s : Session) : Prop :=
  connection s = c.

Definition same_playback
    (p : list Message * list value * list Audio * bool) (s : Session) : Prop :=
  playback s = p.

(** Effects of the media side: requests to the synthesis route, frames
    sent on a socket, playback, console output. *)
Definition media_effect (e : Effect) : Prop :=
  match e with
  | HttpPost _ _ | WsSend _ _ | AudioPlay _ _ | ConsoleError _ _
  | Uncaught _ => True
  | _ => False
  end.

(** Effects of the connection side: everything but playback and the
    synthesis request. *)
Definition connection_effect (e : Effect) : Prop :=
  match e with
  | AudioPlay _ _ | HttpPost _ _ => False
  | _ => True
  end.

(** The log extends [m0]. *)
Definition log_extends (m0 : list Message) (s : Session) : Prop :=
  exists l, messages s = m0 ++ l.

(** No entry of the log has a falsy text. *)
Definition log_truthy (s : Session) : Prop :=
  Forall (fun m => truthy (text m) = true) (messages s).

(** The handle, when set, refers to a socket the hook created. *)
Definition handle_valid (s : Session) : Prop :=
  match websocketRef s with
  | Some w => (w < length (sockets s))%nat
  | None => True
  end.

(** The four frame types [ws.onmessage] acts on. *)
Definition known_type (ty : value) : bool :=
  is_str ty "ping" || is_str ty "user_transcript"
  || is_str ty "agent_response" || is_str ty "audio".


(** The frames sent on socket [w] in a trace, in order. *)
Definition sends_on (w : nat) (t : list Effect) : list value :=
  omap (fun e => match e with
                 | WsSend w' frame => if Nat.eqb w' w then Some frame else None
                 | _ => None
                 end) t.

(** On every socket, nothing has been sent before the initiation
    message: a socket on which nothing was sent is not open, and the
    first frame sent on any socket is the initiation message. *)
Definition initiation_first (s : Session) (t : list Effect) : Prop :=
  forall w,
    match sends_on w t with
    | [] => is_OPEN (readyState_of w s) = false
    | frame :: _ => frame = initiation
    end.

(** Only sockets in [O] are open. *)
Definition only_open (O : nat -> Prop) (s : Session) : Prop :=
  forall w, is_OPEN (readyState_of w s) = true -> O w.

(** Frames are sent only on sockets in [O]. *)
Definition sends_within (O : nat -> Prop) (e : Effect) : Prop :=
  match e with
  | WsSend w _ => O w
  | _ => True
  end.

Definition is_SocketOpen (ev : Event) : bool :=
  match ev with SocketOpen _ => true | _ => false end.

(** * The backend proxy (backend/routes/conversation.js and the service
      functions it calls) *)

From Stdlib Require Import Strings.Byte Ascii NArith.

(** [process.env]: each variable is a string or [undefined]. *)
Record Env := mkEnv {
  AGENT_ID : option string;
  ELEVENLABS_API_KEY : option string;
  ELEVENLABS_VOICE_ID : option string
}.

Definition env_value (o : option string) : value :=
  match o with
  | Some s => VStr s
  | None => VUndefined
  end.

(** What [res.status(..).json(..)] sends. *)
Record HttpResponse := mkHttpResponse { statusCode : nat; json : value }.

(** How a request to the ElevenLabs API ends for axios: a 2xx response
    with its body, or a rejection with an error message. *)
Inductive Upstream (A : Type) :=
| UpOk (data : A)
| UpErr (message : string).
Arguments UpOk {A} data.
Arguments UpErr {A} message.

(** The default [voice_settings] object,
    [{ stability: 0.5, similarity_boost: 0.8 }], or the caller's. *)
Inductive VoiceSettings :=
| DefaultVoiceSettings
| GivenVoiceSettings (v : value).

(** The body [textToSpeech] posts. *)
Record TtsBody := mkTtsBody {
  tts_text : value;
  tts_model_id : value;
  tts_voice_settings : VoiceSettings;
  tts_output_format : value
}.

Inductive ServerEffect :=
| UpstreamGet (target : string) (xi_api_key : string)
| UpstreamPost (target : string) (xi_api_key : string) (data : TtsBody)
| ServerLog (msg : string) (e : Exn).

Definition BASE_URL : string := "https://api.elevenlabs.io".

(** [typeof v === 'string'] *)
Definition is_string (v : value) : bool :=
  match v with VStr _ => true | _ => false end.

(** [a || b] on values *)
Definition or_else (a b : value) : value := if truthy a then a else b.

(** [buffer.toString('base64')]: the standard alphabet with padding. *)
Definition b64_char (n : N) : ascii :=
  if (n <? 26)%N then ascii_of_N (65 + n)
  else if (n <? 52)%N then ascii_of_N (71 + n)
  else if (n <? 62)%N then ascii_of_N (n - 4)
  else if (n =? 62)%N then "+"%char
  else "/"%char.

Fixpoint toString_base64 (bs : list byte) : string :=
  match bs with
  | [] => ""
  | [a] =>
      let x := Byte.to_N a in
      String (b64_char (x / 4))
        (String (b64_char ((x mod 4) * 16)) "==")
  | [a; b] =>
      let x := Byte.to_N a in
      let y := Byte.to_N b in
      String (b64_char (x / 4))
        (String (b64_char ((x mod 4) * 16 + y / 16))
           (String (b64_char ((y mod 16) * 4)) "="))
  | a :: b :: c :: rest =>
      let x := Byte.to_N a in
      let y := Byte.to_N b in
      let z := Byte.to_N c in
      String (b64_char (x / 4))
        (String (b64_char ((x mod 4) * 16 + y / 16))
           (String (b64_char ((y mod 16) * 4 + z / 64))
              (String (b64_char (z mod 64)) (toString_base64 rest))))
  end.

Section Backend.

(** [encodeURIComponent], the platform's. *)
Variable encodeURIComponent : string -> string.

(** [getSignedUrl], services lines 84-94 of the listing: the request,
    then the URL when the body carries a truthy [signed_url], an Error
    otherwise.  A rejected request throws the axios error. *)
Definition getSignedUrl (agentId apiKey : string) (up : Upstream value)
  : Res value * list ServerEffect :=
  let target :=
    (BASE_URL ++ "/v1/convai/conversation/get-signed-url?agent_id="
       ++ encodeURIComponent agentId)%string in
  (match up with
   | UpErr m => Thrown (Error m)
   | UpOk data =>
       if truthy data && truthy (get_prop_opt data "signed_url")
       then Ok (get_prop_opt data "signed_url")
       else Thrown
              (Error "Invalid response from ElevenLabs when requesting signed URL")
   end,
   [UpstreamGet target apiKey]).

(** [textToSpeech], services lines 109-129: [options] defaults to [{}]
    when it is [undefined]; each setting falls back to its default when
    falsy.  Returns the bytes of the response. *)
Definition textToSpeech (text : value) (voiceId apiKey : string)
    (options : value) (up : Upstream (list byte))
  : Res (list byte) * list ServerEffect :=
  let options := if is_undefined options then VObj [] else options in
  let target :=
    (BASE_URL ++ "/v1/text-to-speech/" ++ encodeURIComponent voiceId)%string in
  match get_prop options "model_id" with
  | Thrown e => (Thrown e, [])
  | Ok _ =>
      let data :=
        mkTtsBody text
          (or_else (get_prop_opt options "model_id")
             (VStr "eleven_multilingual_v2"))
          (if truthy (get_prop_opt options "voice_settings")
           then GivenVoiceSettings (get_prop_opt options "voice_settings")
           else DefaultVoiceSettings)
          (or_else (get_prop_opt options "output_format")
             (VStr "mp3_44100_128")) in
      (match up with
       | UpOk bytes => Ok bytes
       | UpErr m => Thrown (Error m)
       end,
       [UpstreamPost target apiKey data])
  end.

Definition error_body (msg : string) : value := VObj [("error", VStr msg)].

(** [GET /api/signed-url], lines 18-34. *)
Definition signed_url_route (env : Env) (up : Upstream value)
  : HttpResponse * list ServerEffect :=
  let agentId := AGENT_ID env in
  let apiKey := ELEVENLABS_API_KEY env in
  if negb (truthy (env_value agentId)) then
    (mkHttpResponse 500 (error_body "Agent ID is not configured"), [])
  else if negb (truthy (env_value apiKey)) then
    (mkHttpResponse 500 (error_body "ElevenLabs API key is not configured"), [])
  else
    match getSignedUrl (default "" agentId) (default "" apiKey) up with
    | (Ok signedUrl, t) =>
        (mkHttpResponse 200 (JSON_stringify [("signedUrl", signedUrl)]), t)
    | (Thrown e, t) =>
        (mkHttpResponse 500 (error_body "Failed to obtain signed URL"),
         t ++ [ServerLog "Error getting signed URL:" e])
    end.

(** [POST /api/tts], lines 40-59; [req_body] is [req.body]. *)
Definition tts_route (env : Env) (req_body : value) (up : Upstream (list byte))
  : HttpResponse * list ServerEffect :=
  let apiKey := ELEVENLABS_API_KEY env in
  let voiceId := ELEVENLABS_VOICE_ID env in
  if negb (truthy (env_value apiKey)) || negb (truthy (env_value voiceId)) then
    (mkHttpResponse 500 (error_body "Voice ID or API key not configured"), [])
  else
    match get_prop req_body "text" with
    | Thrown e =>
        (mkHttpResponse 500 (error_body "Failed to generate speech"),
         [ServerLog "Error generating TTS:" e])
    | Ok text =>
        if negb (truthy text) || negb (is_string text) then
          (mkHttpResponse 400 (error_body "Invalid or missing text"), [])
        else
          match textToSpeech text (default "" voiceId) (default "" apiKey)
                  VUndefined up with
          | (Ok audioBuffer, t) =>
              (mkHttpResponse 200
                 (JSON_stringify
                    [("audio", VStr (toString_base64 audioBuffer));
                     ("format", VStr "mp3")]), t)
          | (Thrown e, t) =>
              (mkHttpResponse 500 (error_body "Failed to generate speech"),
               t ++ [ServerLog "Error generating TTS:" e])
          end
    end.

End Backend.

(** What axios makes of a response on the client: the promise resolves
    with the body for a 2xx status and is rejected otherwise. *)
Definition axios_settles (r : HttpResponse) : Response :=
  if (200 <=? statusCode r)%nat && (statusCode r <? 300)%nat
  then Resolved (json r)
  else Failed.

(** The strings that occur in a value. *)
Fixpoint strings_of (v : value) : list string :=
  match v with
  | VStr s => [s]
  | VArr l => (fix go (l : list value) : list string :=
                 match l with
                 | [] => []
                 | x :: r => strings_of x ++ go r
                 end) l
  | VObj fs => (fix go (fs : list (string * value)) : list string :=
                  match fs with
                  | [] => []
                  | (_, x) :: r => strings_of x ++ go r
                  end) fs
  | _ => []
  end.

(** An environment variable is set to a non-empty string. *)
Definition configured (o : option string) : bool := truthy (env_value o).

(** The error messages of the two routes. *)
Definition signed_url_messages : list string :=
  ["Agent ID is not configured"; "ElevenLabs API key is not configured";
   "Failed to obtain signed URL"].
Definition tts_messages : list string :=
  ["Voice ID or API key not configured"; "Invalid or missing text";
   "Failed to generate speech"].

Definition is_upstream_request (e : ServerEffect) : bool :=
  match e with
  | UpstreamGet _ _ | UpstreamPost _ _ _ => true
  | ServerLog _ _ => false
  end.

(** The request [POST /api/tts] makes upstream for a text: the route
    passes no options, so every setting is the default. *)
Definition tts_request (enc : string -> string)
    (voiceId key : string) (text : value) : ServerEffect :=
  UpstreamPost (BASE_URL ++ "/v1/text-to-speech/" ++ enc voiceId)%string key
    (mkTtsBody text (VStr "eleven_multilingual_v2") DefaultVoiceSettings
       (VStr "mp3_44100_128")).

(** The text of a request body is acceptable to [POST /api/tts]. *)
Definition valid_text (req_body : value) : bool :=
  match get_prop req_body "text" with
  | Ok text => truthy text && is_string text
  | Thrown _ => false
  end.

(** * The Chat component (components/Chat.js) *)

(** The component's own state next to the hook's: the text input, the
    [MediaStream] kept for the visualizer, and for every stream obtained
    so far whether its tracks are still live. *)
Record ChatState := mkChat {
  hook : Session;
  textInput : string;
  audioStream : option nat;
  streams : list bool
}.

Inductive ChatEffect :=
| FromHook (e : Effect)
| PreventDefault
| GetUserMedia
| TracksStopped (stream : nat)
| ChatConsoleError (msg : string).

(** Runs an entry point of the hook inside the component; the promise it
    returns is not awaited. *)
Definition call_hook (m : M unit) (c : ChatState)
  : ChatState * list ChatEffect :=
  let '(_, s', t) := m (hook c) in
  (mkChat s' (textInput c) (audioStream c) (streams c), map FromHook t).

(** [startConversation] as captured by a render in which [isConnected]
    had the value [connected]. *)
Definition startConversation_of_render (connected : bool) : M unit :=
  if connected then ret tt
  else emit (HttpGet "/api/signed-url") >> modify (with_pendingSignedUrl S).

Section ChatComponent.

(** [String.prototype.trim], the platform's. *)
Variable trim : string -> string.

(** [handleSubmit], lines 44-54 of the component. *)
Definition handleSubmit (c : ChatState) : ChatState * list ChatEffect :=
  let text := trim (textInput c) in
  if truthy (VStr text) then
    let '(c1, t) := call_hook (sendTextMessage (VStr text)) c in
    (mkChat (hook c1) "" (audioStream c1) (streams c1), PreventDefault :: t)
  else (c, [PreventDefault]).

End ChatComponent.

(** [handleToggleRecording] up to its [await], lines 25-34. *)
Definition handleToggleRecording (c : ChatState)
  : ChatState * list ChatEffect :=
  if isRecording (hook c) then
    let '(c1, t) := call_hook stopConversation c in
    match audioStream c1 with
    | Some k =>
        (mkChat (hook c1) (textInput c1) None (<[k := false]> (streams c1)),
         t ++ [TracksStopped k])
    | None => (c1, t)
    end
  else (c, [GetUserMedia]).

(** [handleToggleRecording] once [getUserMedia] has settled, lines
    34-40; [connected] is [isConnected] as of the render whose callback
    was clicked. *)
Definition handleToggleRecording_resumed (granted connected : bool)
    (c : ChatState) : ChatState * list ChatEffect :=
  let '(c1, t1) :=
    if granted then
      (mkChat (hook c) (textInput c) (Some (length (streams c)))
         (streams c ++ [true]), [])
    else (c, [ChatConsoleError "Microphone access denied:"]) in
  let '(c2, t2) := call_hook (startConversation_of_render connected) c1 in
  (c2, t1 ++ t2).

(** * Facts about the callbacks *)

#[local] Arguments maybePlayNextAudio : simpl never.

Ltac unfold_monad :=
  unfold bind, ret, gets, modify, emit, throw, lift, try_catch in *.

Section AudioLists.
Implicit Types (l : list Audio) (a : Audio).

Lemma mark_fragments l k a st :
  l !! k = Some a ->
  fragment <$> <[k := mkAudio (fragment a) st]> l = fragment <$> l.
Proof.
  intros H. rewrite list_fmap_insert. cbn.
  apply list_insert_id. by rewrite list_lookup_fmap, H.
Qed.

Lemma mark_split l k a st :
  l !! k = Some a ->
  l = take k l ++ a :: drop (S k) l /\
  <[k := mkAudio (fragment a) st]> l
    = take k l ++ mkAudio (fragment a) st :: drop (S k) l.
Proof.
  intros H. split.
  - symmetry. by apply take_drop_middle.
  - apply insert_take_drop. by eapply lookup_lt_Some.
Qed.

Lemma filter_playing_middle l1 l2 a :
  List.filter audio_is_playing (l1 ++ a :: l2)
    = List.filter audio_is_playing l1
      ++ (if audio_is_playing a then [a] else [])
      ++ List.filter audio_is_playing l2.
Proof. rewrite List.filter_app. cbn. by destruct (audio_is_playing a). Qed.

Lemma mark_playing_now l k a st :
  l !! k = Some a -> status a = Playing -> st <> Playing ->
  S (length (List.filter audio_is_playing (<[k := mkAudio (fragment a) st]> l)))
    = length (List.filter audio_is_playing l).
Proof.
  intros H Ha Hst. destruct (mark_split l k a st H) as [E1 E2].
  rewrite E2. rewrite E1 at 3.
  rewrite !filter_playing_middle, !length_app.
  assert (audio_is_playing a = true) as ->
    by (unfold audio_is_playing; by rewrite Ha).
  assert (audio_is_playing (mkAudio (fragment a) st) = false) as ->
    by (by destruct st).
  cbn. lia.
Qed.

Lemma playing_now_snoc l v :
  List.filter audio_is_playing (l ++ [mkAudio v Playing])
    = List.filter audio_is_playing l ++ [mkAudio v Playing].
Proof. by rewrite List.filter_app. Qed.

Lemma lookup_playing_now l k a :
  l !! k = Some a -> status a = Playing ->
  List.filter audio_is_playing l <> [].
Proof.
  intros H Ha E.
  assert (In a (List.filter audio_is_playing l)) as Hin.
  { apply List.filter_In. split.
    - apply list_elem_of_In. by eapply list_elem_of_lookup_2.
    - unfold audio_is_playing. by rewrite Ha. }
  rewrite E in Hin. inversion Hin.
Qed.

Lemma length_audio_partition l :
  length l = (length (List.filter audio_is_playing l)
             + length (List.filter (fun a => negb (audio_is_playing a)) l))%nat.
Proof.
  induction l as [|a l IH]; [done|]. cbn.
  destruct (audio_is_playing a); cbn; lia.
Qed.
End AudioLists.

Lemma status_of_Playing k s :
  is_Playing (status_of k s) = true ->
  exists a, audios s !! k = Some a /\ status a = Playing.
Proof.
  unfold status_of. destruct (audios s !! k) as [a|]; cbn; [|done].
  intros H. exists a. split; [done|]. by destruct (status a).
Qed.

Lemma maybePlayNextAudio_busy s :
  isAudioPlayingRef s = true -> maybePlayNextAudio s = (Ok tt, s, []).
Proof. intros H. unfold maybePlayNextAudio. unfold_monad. by rewrite H. Qed.

Lemma maybePlayNextAudio_empty s :
  isAudioPlayingRef s = false -> audioQueueRef s = [] ->
  maybePlayNextAudio s = (Ok tt, s, []).
Proof.
  intros H Hq. unfold maybePlayNextAudio. unfold_monad. by rewrite H, Hq.
Qed.

Lemma maybePlayNextAudio_next s next rest :
  isAudioPlayingRef s = false -> audioQueueRef s = next :: rest ->
  truthy next = true ->
  maybePlayNextAudio s =
    (Ok tt,
     with_audios (fun l => l ++ [mkAudio next Playing])
       (with_isAudioPlayingRef true (with_audioQueueRef rest s)),
     [AudioPlay (length (audios s)) next]).
Proof.
  intros H Hq Ht. unfold maybePlayNextAudio, audio_play. unfold_monad.
  rewrite H, Hq. cbn. by rewrite Ht.
Qed.

(** [maybePlayNextAudio] never throws. *)
Lemma maybePlayNextAudio_ok s :
  exists s' t, maybePlayNextAudio s = (Ok tt, s', t).
Proof.
  unfold maybePlayNextAudio, audio_play. unfold_monad.
  destruct (isAudioPlayingRef s); [eauto|].
  destruct (audioQueueRef s) as [|next rest]; [eauto|]. cbn.
  destruct (truthy next); eauto.
Qed.

(** ** The sequencer invariant *)

Lemma SeqInv_init : SeqInv init.
Proof. split; cbn; [constructor | done | done]. Qed.

(** The state after the flag is cleared and [maybePlayNextAudio] ran. *)
Lemma release_next_inv s :
  Forall is_truthy (audioQueueRef s) -> playing_now s = [] ->
  let s' := snd (fst (maybePlayNextAudio (with_isAudioPlayingRef false s))) in
  SeqInv s' /\ arrivals s' = arrivals s
  /\ started s' = started s ++ take 1 (audioQueueRef s)
  /\ audioQueueRef s' = drop 1 (audioQueueRef s)
  /\ (isAudioPlayingRef s' = true <-> audioQueueRef s <> []).
Proof.
  intros Hq Hp. set (s0 := with_isAudioPlayingRef false s).
  destruct (audioQueueRef s) as [|next rest] eqn:Eq.
  - rewrite (maybePlayNextAudio_empty s0) by done. cbn.
    split; [|split; [done|]].
    + split; cbn; [by rewrite Eq | done | done].
    + unfold started. cbn. rewrite app_nil_r. by rewrite Eq.
  - inversion Hq as [|? ? Hnext Hrest]; subst.
    rewrite (maybePlayNextAudio_next s0 next rest) by done. cbn.
    split; [|split; [|split; [|done]]].
    + split; cbn; [done | | done].
      intros _. unfold playing_now in *. cbn. by rewrite playing_now_snoc, Hp.
    + unfold arrivals, started. cbn. by rewrite fmap_app, <- app_assoc, Eq.
    + unfold started. cbn. by rewrite fmap_app.
Qed.

Lemma completion_inv s k st :
  st <> Playing -> is_Playing (status_of k s) = true -> SeqInv s ->
  let s' := snd (fst (maybePlayNextAudio
                        (with_isAudioPlayingRef false (set_status k st s)))) in
  SeqInv s' /\ arrivals s' = arrivals s
  /\ finished (set_status k st s) = S (finished s)
  /\ audios s' !! k = (fun a => mkAudio (fragment a) st) <$> audios s !! k
  /\ started s' = started s ++ take 1 (audioQueueRef s)
  /\ audioQueueRef s' = drop 1 (audioQueueRef s)
  /\ (isAudioPlayingRef s' = true <-> audioQueueRef s <> []).
Proof.
  intros Hst Hk [I2 I3 I4].
  destruct (status_of_Playing _ _ Hk) as (a & Ha & Hpl).
  assert (isAudioPlayingRef s = true) as Hflag.
  { destruct (isAudioPlayingRef s) eqn:E; [done|].
    destruct (I4 eq_refl) as [_ Hnone].
    by destruct (lookup_playing_now _ _ _ Ha Hpl). }
  specialize (I3 Hflag).
  pose proof (mark_playing_now _ _ _ st Ha Hpl Hst) as Hcount.
  set (s1 := set_status k st s).
  assert (audios s1 = <[k := mkAudio (fragment a) st]> (audios s)) as Haud.
  { unfold s1, set_status. cbn. by rewrite Ha. }
  assert (playing_now s1 = []) as Hnone.
  { unfold playing_now in *. rewrite Haud. apply length_zero_iff_nil. lia. }
  assert (arrivals s1 = arrivals s) as Harr.
  { unfold arrivals, started. rewrite Haud. cbn.
    by rewrite (mark_fragments _ _ _ _ Ha). }
  assert (started s1 = started s) as Hst1.
  { unfold started. rewrite Haud. by apply mark_fragments. }
  destruct (release_next_inv s1 I2 Hnone) as (J1 & J2 & J3 & J4 & J5).
  split; [done|]. split; [congruence|].
  split; [|split; [|split; [by rewrite <- Hst1|done]]].
  - unfold finished. rewrite Haud.
    pose proof (length_audio_partition (audios s)) as P1.
    pose proof (length_audio_partition (<[k := mkAudio (fragment a) st]> (audios s))) as P2.
    rewrite length_insert in P2. lia.
  - assert (audios s1 !! k
            = (fun a => mkAudio (fragment a) st) <$> audios s !! k) as Hk1.
    { rewrite Haud, Ha. apply list_lookup_insert_eq. by eapply lookup_lt_Some. }
    rewrite <- Hk1. rewrite Ha in Hk1.
    assert (Forall is_truthy (audioQueueRef s1)) as Hq1 by exact I2.
    clearbody s1. set (s0 := with_isAudioPlayingRef false s1).
    destruct (audioQueueRef s1) as [|next rest] eqn:Eq.
    + by rewrite (maybePlayNextAudio_empty s0).
    + inversion Hq1; subst.
      rewrite (maybePlayNextAudio_next s0 next rest) by done. cbn.
      rewrite Hk1. by apply lookup_app_l_Some.
Qed.

Lemma seq_deliver_Enqueue s f :
  seq_deliver (Enqueue f) s
  = let '(r, s', t) :=
      maybePlayNextAudio (with_audioQueueRef (audioQueueRef s ++ [f]) s) in
    (r, s', t).
Proof.
  unfold seq_deliver, audioQueue_push, bind, gets, modify.
  by destruct (maybePlayNextAudio _) as [[r s2] t2].
Qed.

Lemma enqueue_inv s f :
  is_truthy f -> SeqInv s ->
  let s' := seq_step (Enqueue f) s in
  SeqInv s' /\ arrivals s' = arrivals s ++ [f].
Proof.
  intros Hf [I2 I3 I4]. unfold seq_step.
  change (seq_enabled (Enqueue f) s) with true. cbv iota.
  rewrite seq_deliver_Enqueue.
  set (s1 := with_audioQueueRef (audioQueueRef s ++ [f]) s).
  destruct (isAudioPlayingRef s) eqn:Epl.
  - rewrite (maybePlayNextAudio_busy s1) by done. cbn. split.
    + split; cbn; [by apply Forall_app_2; [|constructor] | by rewrite Epl | ].
      by rewrite Epl.
    + unfold arrivals, started. cbn. by rewrite app_assoc.
  - destruct (I4 eq_refl) as [Hq Hp].
    rewrite (maybePlayNextAudio_next s1 f []) by (done || (cbn; by rewrite Hq)).
    cbn. split.
    + split; cbn; [constructor | | done].
      intros _. unfold playing_now in *. cbn. by rewrite playing_now_snoc, Hp.
    + unfold arrivals, started. cbn. by rewrite Hq, fmap_app, !app_nil_r.
Qed.

Lemma seq_deliver_OnEnded s k :
  snd (fst (seq_deliver (OnEnded k) s))
  = snd (fst (maybePlayNextAudio
                (with_isAudioPlayingRef false (set_status k Ended s)))).
Proof.
  unfold seq_deliver, audio_onended, bind, modify.
  by destruct (maybePlayNextAudio _) as [[r s2] t2].
Qed.

Lemma seq_deliver_PlayFailed s k :
  snd (fst (seq_deliver (PlayFailed k) s))
  = snd (fst (maybePlayNextAudio
                (with_isAudioPlayingRef false (set_status k Rejected s)))).
Proof.
  unfold seq_deliver, audio_play_catch, bind, modify.
  by destruct (maybePlayNextAudio _) as [[r s2] t2].
Qed.

Lemma seq_step_inv e s :
  Forall is_truthy (enqueued [e]) -> SeqInv s ->
  SeqInv (seq_step e s) /\ arrivals (seq_step e s) = arrivals s ++ enqueued [e].
Proof.
  intros He Hs. destruct e as [f|k|k].
  - apply enqueue_inv; [|done]. by inversion He.
  - change (enqueued [OnEnded k]) with (@nil value). rewrite app_nil_r.
    unfold seq_step. cbn [seq_enabled].
    destruct (is_Playing (status_of k s)) eqn:Hk; [|done].
    rewrite seq_deliver_OnEnded.
    by destruct (completion_inv s k Ended ltac:(done) Hk Hs) as (? & ? & _).
  - change (enqueued [PlayFailed k]) with (@nil value). rewrite app_nil_r.
    unfold seq_step. cbn [seq_enabled].
    destruct (is_Playing (status_of k s)) eqn:Hk; [|done].
    rewrite seq_deliver_PlayFailed.
    by destruct (completion_inv s k Rejected ltac:(done) Hk Hs) as (? & ? & _).
Qed.

Lemma enqueued_cons e evs : enqueued (e :: evs) = enqueued [e] ++ enqueued evs.
Proof. unfold enqueued. cbn. by rewrite app_nil_r. Qed.

Lemma seq_run_inv evs s :
  Forall is_truthy (enqueued evs) -> SeqInv s ->
  SeqInv (seq_run evs s) /\ arrivals (seq_run evs s) = arrivals s ++ enqueued evs.
Proof.
  revert s. induction evs as [|e evs IH]; intros s He Hs.
  - cbn. by rewrite app_nil_r.
  - rewrite enqueued_cons in He. apply Forall_app in He as [He1 He2].
    destruct (seq_step_inv e s He1 Hs) as [J1 J2].
    destruct (IH (seq_step e s) He2 J1) as [K1 K2].
    change (seq_run (e :: evs) s) with (seq_run evs (seq_step e s)).
    split; [done|]. by rewrite K2, J2, (enqueued_cons e evs), app_assoc.
Qed.

(** Under the invariant the flag says exactly whether an element plays,
    and what has started is the first [finished + 1] arrivals. *)
Lemma SeqInv_progress s :
  SeqInv s ->
  (length (playing_now s) <= 1)%nat
  /\ (isAudioPlayingRef s = true <-> length (playing_now s) = 1%nat)
  /\ started s = take (S (finished s)) (arrivals s).
Proof.
  intros [I2 I3 I4].
  pose proof (length_audio_partition (audios s)) as P.
  fold (playing_now s) in P. fold (finished s) in P.
  assert (length (started s) = length (audios s)) as L
    by (unfold started; apply length_fmap).
  destruct (isAudioPlayingRef s) eqn:Epl.
  - specialize (I3 eq_refl). split; [lia|]. split; [done|].
    unfold arrivals. replace (S (finished s)) with (length (started s)) by lia.
    by rewrite take_app_length.
  - destruct (I4 eq_refl) as [Hq Hp]. rewrite Hp. cbn. split; [lia|].
    split; [done|]. unfold arrivals. rewrite Hq, app_nil_r.
    symmetry. apply take_ge. rewrite Hp in P. cbn in P. lia.
Qed.

(** C1. For every schedule of the sequencer (fragments handed over by the
    producers, natural completions and playback failures interleaved in
    any way), started from the empty sequencer: the fragments whose
    playback has begun followed by those still queued are exactly the
    enqueued fragments in enqueue order; playback has begun for exactly
    the first [finished + 1] of them, where ended and failed elements
    count alike; at most one audio element is playing and the flag is set
    exactly when one is; and when the playing element fails it is marked
    rejected, the head of the queue (if any) is started next and removed
    from the queue, and the flag ends up set exactly when there was a
    next fragment. *)
Theorem sequencer_fifo (evs : list SeqEvent) :
  Forall is_truthy (enqueued evs) ->
  let s := seq_run evs init in
  started s ++ audioQueueRef s = enqueued evs
  /\ started s = take (S (finished s)) (enqueued evs)
  /\ (length (playing_now s) <= 1)%nat
  /\ (isAudioPlayingRef s = true <-> length (playing_now s) = 1%nat)
  /\ (forall k, is_Playing (status_of k s) = true ->
        let s' := seq_step (PlayFailed k) s in
        status_of k s' = Some Rejected
        /\ started s' = started s ++ take 1 (audioQueueRef s)
        /\ audioQueueRef s' = drop 1 (audioQueueRef s)
        /\ (length (playing_now s') <= 1)%nat
        /\ (isAudioPlayingRef s' = true <-> audioQueueRef s <> [])).
Proof.
  intros He s.
  destruct (seq_run_inv evs init He SeqInv_init) as [Hinv Harr].
  fold s in Hinv, Harr. change (arrivals init) with (@nil value) in Harr.
  cbn in Harr.
  destruct (SeqInv_progress s Hinv) as (P1 & P2 & P3).
  rewrite Harr in P3.
  split; [exact Harr|]. split; [done|]. split; [done|]. split; [done|].
  intros k Hk s'.
  destruct (completion_inv s k Rejected ltac:(done) Hk Hinv)
    as (J1 & _ & _ & J4 & J5 & J6 & J7).
  assert (s' = snd (fst (maybePlayNextAudio
                (with_isAudioPlayingRef false (set_status k Rejected s))))) as ->.
  { unfold s', seq_step. cbn [seq_enabled]. rewrite Hk.
    apply seq_deliver_PlayFailed. }
  split.
  - unfold status_of. rewrite J4.
    destruct (status_of_Playing _ _ Hk) as (a & -> & _). done.
  - split; [done|]. split; [done|]. split; [|done].
    by destruct (SeqInv_progress _ J1) as (Q1 & _).
Qed.

Lemma sequencer_fifo_witness :
  let evs := [Enqueue (VStr "QUFB"); Enqueue (VStr "QkJC"); PlayFailed 0;
              Enqueue (VStr "Q0ND"); OnEnded 1] in
  Forall is_truthy (enqueued evs)
  /\ started (seq_run evs init) = [VStr "QUFB"; VStr "QkJC"; VStr "Q0ND"].
Proof.
  split.
  - repeat constructor.
  - pose proof (sequencer_fifo
      [Enqueue (VStr "QUFB"); Enqueue (VStr "QkJC"); PlayFailed 0;
       Enqueue (VStr "Q0ND"); OnEnded 1] ltac:(repeat constructor)) as H.
    cbv zeta in H. destruct H as (_ & H & _). rewrite H. reflexivity.
Defined.

(** ** The text fallback path *)

Lemma get_prop_defined data k k' a :
  get_prop data k = Ok a -> exists b, get_prop data k' = Ok b.
Proof. destruct data; cbn; intros; try discriminate; eauto. Qed.

Lemma truthy_defined v : truthy v = true -> is_undefined v = false.
Proof. by destruct v. Qed.

Lemma sendTextMessage_truthy text s :
  truthy text = true ->
  sendTextMessage text s
  = (Ok tt,
     with_pendingTts S (with_messages (fun l => l ++ [user_message text]) s),
     [HttpPost "/api/tts" (VObj [("text", text)])]).
Proof.
  intros H. unfold sendTextMessage, setMessages_append, JSON_stringify.
  unfold_monad. rewrite H. cbn. by rewrite (truthy_defined _ H).
Qed.

Lemma sendTextMessage_resumed_Failed s :
  sendTextMessage_resumed Failed s
  = (Ok tt, with_messages (fun l => l ++ [failure_notice]) s,
     [ConsoleError "Failed to perform TTS:" RequestFailed]).
Proof. reflexivity. Qed.

Lemma sendTextMessage_resumed_no_audio data a s :
  get_prop data "audio" = Ok a -> truthy a = false ->
  sendTextMessage_resumed (Resolved data) s = (Ok tt, s, []).
Proof.
  intros Ha Hf. destruct (get_prop_defined data "audio" "format" a Ha) as [b Hb].
  unfold sendTextMessage_resumed, await. unfold_monad.
  rewrite Ha, Hb. cbn. by rewrite Hf.
Qed.

Lemma sendTextMessage_resumed_audio data a s :
  get_prop data "audio" = Ok a -> truthy a = true ->
  sendTextMessage_resumed (Resolved data) s
  = (Ok tt,
     with_messages (fun l => l ++ [audio_placeholder]) (seq_step (Enqueue a) s),
     effects_of (seq_deliver (Enqueue a)) s).
Proof.
  intros Ha Ht. destruct (get_prop_defined data "audio" "format" a Ha) as [b Hb].
  unfold seq_step, effects_of. cbn [seq_enabled]. rewrite seq_deliver_Enqueue.
  unfold sendTextMessage_resumed, await, audioQueue_push, setMessages_append.
  unfold_monad. rewrite Ha, Hb. cbn. rewrite Ht.
  destruct (maybePlayNextAudio_ok (with_audioQueueRef (audioQueueRef s ++ [a]) s))
    as (s1 & t & ->).
  cbn. by rewrite app_nil_r.
Qed.

(** C10. [sendTextMessage] with a falsy text (the empty string, [null],
    [undefined], [0], [false]) returns at once: the session, with its
    message log, queue, playing flag and pending requests, is unchanged
    and no effect, in particular no request, is emitted. *)
Theorem sendTextMessage_falsy_noop (acc : value -> bool) (text : value) (s : Session) :
  truthy text = false ->
  sendTextMessage text s = (Ok tt, s, [])
  /\ step acc (CallSendTextMessage text) s = (s, []).
Proof.
  intros H. assert (sendTextMessage text s = (Ok tt, s, [])) as E.
  { unfold sendTextMessage. by rewrite H. }
  split; [done|]. unfold step. cbn [enabled deliver]. by rewrite E.
Qed.

Lemma sendTextMessage_falsy_noop_witness :
  truthy (VStr "") = false
  /\ step accepts_ws_urls (CallSendTextMessage (VStr "")) active_session
     = (active_session, []).
Proof.
  split; [reflexivity|].
  exact (proj2 (sendTextMessage_falsy_noop accepts_ws_urls (VStr "")
                  active_session eq_refl)).
Defined.

(** C9 as stated fails: a 2xx response whose body is [null] lacks a
    non-empty [audio] field, yet reading [audio] off it throws inside the
    [try] and the [catch] appends the failure notice, an agent message. *)
Lemma tts_null_body_appends_notice :
  run accepts_ws_urls
    [CallSendTextMessage (VStr "hello"); TtsSettled (Resolved VNull)] init
  = (with_messages
       (fun _ => [user_message (VStr "hello"); failure_notice]) init,
     [HttpPost "/api/tts" (VObj [("text", VStr "hello")]);
      ConsoleError "Failed to perform TTS:" TypeError])
  /\ In failure_notice
       (messages (fst (run accepts_ws_urls
          [CallSendTextMessage (VStr "hello"); TtsSettled (Resolved VNull)]
          init))).
Proof. split; [vm_compute; reflexivity|]. vm_compute. tauto. Qed.

(** C9, amended. When the synthesis call resolves with a body that is
    not [null] or [undefined] and whose [audio] property reads as a
    falsy value (absent, empty, null), the continuation of
    [sendTextMessage] changes nothing and emits nothing; so the whole
    exchange has appended the user message, no agent message of any
    kind, and has left queue, audio elements and playing flag as they
    were.  When the body is itself [null] or [undefined], so that the
    read of [audio] throws, the continuation logs the error and appends
    the failure notice, and still enqueues nothing. *)
Theorem tts_without_audio_is_silent
    (acc : value -> bool) (text data a : value) (s : Session) :
  truthy text = true ->
  get_prop data "audio" = Ok a -> truthy a = false ->
  let s1 := fst (step acc (CallSendTextMessage text) s) in
  let s2 := fst (step acc (TtsSettled (Resolved data)) s1) in
  sendTextMessage_resumed (Resolved data) s1 = (Ok tt, s1, [])
  /\ messages s2 = messages s ++ [user_message text]
  /\ audioQueueRef s2 = audioQueueRef s
  /\ audios s2 = audios s
  /\ isAudioPlayingRef s2 = isAudioPlayingRef s
  /\ snd (step acc (TtsSettled (Resolved data)) s1) = []
  /\ (forall s0 body e,
        get_prop body "audio" = Thrown e ->
        (body = VNull \/ body = VUndefined)
        /\ sendTextMessage_resumed (Resolved body) s0
           = (Ok tt, with_messages (fun l => l ++ [failure_notice]) s0,
              [ConsoleError "Failed to perform TTS:" e])).
Proof.
  intros Ht Ha Hf s1 s2.
  assert (s1 = with_pendingTts S
                 (with_messages (fun l => l ++ [user_message text]) s)) as E1.
  { unfold s1, step. cbn [enabled deliver]. by rewrite sendTextMessage_truthy. }
  assert (step acc (TtsSettled (Resolved data)) s1
          = (with_messages (fun l => l ++ [user_message text]) s, [])) as E2.
  { rewrite E1. unfold step. cbn [enabled deliver]. cbn [pendingTts with_pendingTts].
    unfold bind at 1. unfold modify at 1.
    rewrite (sendTextMessage_resumed_no_audio data a _ Ha Hf).
    destruct s; reflexivity. }
  split; [by apply (sendTextMessage_resumed_no_audio data a)|].
  unfold s2. rewrite E2. cbn [fst snd].
  do 5 (split; [done|]).
  intros s0 body e He. split.
  - destruct body; cbn in He; try discriminate He; tauto.
  - unfold sendTextMessage_resumed, await, console_error, setMessages_append.
    unfold_monad. by rewrite He.
Qed.

Lemma tts_without_audio_is_silent_witness :
  let body := VObj [("audio", VStr ""); ("format", VStr "mp3")] in
  truthy (VStr "hello") = true
  /\ get_prop body "audio" = Ok (VStr "") /\ truthy (VStr "") = false
  /\ messages (fst (run accepts_ws_urls
        [CallSendTextMessage (VStr "hello"); TtsSettled (Resolved body)] init))
     = [user_message (VStr "hello")].
Proof.
  split; [reflexivity|]. split; [reflexivity|]. split; [reflexivity|].
  exact (proj1 (proj2 (tts_without_audio_is_silent accepts_ws_urls
    (VStr "hello") (VObj [("audio", VStr ""); ("format", VStr "mp3")])
    (VStr "") init eq_refl eq_refl eq_refl))).
Defined.

(** C5 as stated fails: a synthesis call that resolves with an empty
    [audio] is a successful call after which no agent message is
    appended and no fragment is enqueued. *)
Lemma tts_success_without_placeholder :
  let body := VObj [("audio", VStr ""); ("format", VStr "mp3")] in
  let s := fst (run accepts_ws_urls
             [CallSendTextMessage (VStr "hello"); TtsSettled (Resolved body)]
             init) in
  messages s = [user_message (VStr "hello")]
  /\ arrivals s = []
  /\ ~ In audio_placeholder (messages s).
Proof.
  cbn. split; [reflexivity|]. split; [reflexivity|].
  intros [H|[]]. discriminate H.
Qed.

(** C5, amended. For every truthy text, [sendTextMessage] appends the
    user message and issues the request before it suspends.  When the
    call resolves with a truthy [audio], the continuation hands exactly
    that one fragment to the sequencer and then appends the "[audio]"
    placeholder; from a sequencer in its invariant the arrivals grow by
    exactly that fragment.  When the call is rejected, the continuation
    logs the error and appends the failure notice, and queue, audio
    elements and flag are untouched. *)
Theorem sendTextMessage_contract (text : value) (s : Session) :
  truthy text = true ->
  sendTextMessage text s
  = (Ok tt,
     with_pendingTts S (with_messages (fun l => l ++ [user_message text]) s),
     [HttpPost "/api/tts" (VObj [("text", text)])])
  /\ (forall s1 data a,
        get_prop data "audio" = Ok a -> truthy a = true ->
        sendTextMessage_resumed (Resolved data) s1
        = (Ok tt,
           with_messages (fun l => l ++ [audio_placeholder])
             (seq_step (Enqueue a) s1),
           effects_of (seq_deliver (Enqueue a)) s1)
        /\ (SeqInv s1 ->
            arrivals (state_after (sendTextMessage_resumed (Resolved data)) s1)
            = arrivals s1 ++ [a]))
  /\ (forall s1,
        sendTextMessage_resumed Failed s1
        = (Ok tt, with_messages (fun l => l ++ [failure_notice]) s1,
           [ConsoleError "Failed to perform TTS:" RequestFailed])).
Proof.
  intros Ht. split; [by apply sendTextMessage_truthy|]. split.
  - intros s1 data a Ha Hta.
    pose proof (sendTextMessage_resumed_audio data a s1 Ha Hta) as E.
    split; [done|]. intros Hinv. unfold state_after. rewrite E. cbn.
    by destruct (enqueue_inv s1 a Hta Hinv) as [_ ?].
  - intros s1. apply sendTextMessage_resumed_Failed.
Qed.

Lemma sendTextMessage_contract_witness :
  truthy (VStr "hello") = true
  /\ messages (state_after (sendTextMessage (VStr "hello")) init)
     = [user_message (VStr "hello")].
Proof.
  split; [reflexivity|].
  unfold state_after.
  rewrite (proj1 (sendTextMessage_contract (VStr "hello") init eq_refl)).
  reflexivity.
Defined.

(** ** Stopping *)

Lemma readyState_of_set_same w st s :
  w < length (sockets s) -> readyState_of w (set_readyState w st s) = st.
Proof.
  intros H. unfold readyState_of, set_readyState. cbn.
  destruct (lookup_lt_is_Some_2 _ _ H) as [x Hx]. rewrite Hx.
  by rewrite list_lookup_insert_eq.
Qed.

Lemma readyState_of_set_other w w' st s :
  w <> w' -> readyState_of w' (set_readyState w st s) = readyState_of w' s.
Proof.
  intros H. unfold readyState_of, set_readyState. cbn.
  destruct (sockets s !! w) as [x|]; [|done].
  by rewrite list_lookup_insert_ne.
Qed.

Lemma readyState_of_live w s :
  live (readyState_of w s) = true -> w < length (sockets s).
Proof.
  unfold readyState_of. intros H. apply lookup_lt_is_Some.
  destruct (sockets s !! w); [eauto | discriminate H].
Qed.

Lemma stopConversation_open s w :
  websocketRef s = Some w -> readyState_of w s = OPEN ->
  stopConversation s
  = (Ok tt,
     with_isRecording false (with_isConnected false
       (with_websocketRef None (set_readyState w CLOSING s))),
     [WsClose w; StopStreaming]).
Proof.
  intros Hw Ho. unfold stopConversation, ws_close, setIsConnected,
    setIsRecording, stopStreaming.
  unfold_monad. rewrite Hw. cbn. rewrite Ho. cbn. by rewrite Ho.
Qed.

Lemma stopConversation_not_open s :
  socket_active s = false ->
  stopConversation s
  = (Ok tt,
     with_isRecording false (with_isConnected false (with_websocketRef None s)),
     [StopStreaming]).
Proof.
  unfold socket_active. intros H.
  unfold stopConversation, ws_close, setIsConnected, setIsRecording,
    stopStreaming.
  unfold_monad. destruct (websocketRef s) as [w|]; [|done]. cbn.
  by destruct (readyState_of w s).
Qed.

Lemma stopConversation_leaves_idle s :
  result_of stopConversation s = Ok tt /\ idle (state_after stopConversation s).
Proof.
  unfold state_after, result_of.
  destruct (socket_active s) eqn:Ea.
  - unfold socket_active in Ea.
    destruct (websocketRef s) as [w|] eqn:Ew; [|done].
    rewrite (stopConversation_open s w Ew) by (by destruct (readyState_of w s)).
    done.
  - by rewrite (stopConversation_not_open s Ea).
Qed.

(** C8 as stated fails in its description of the end state: a held
    socket that is still connecting is released by neither call.  After
    one stop and after two the socket is still connecting and no
    [close()] was issued; it then opens, the initiation message is sent
    and capture is started. *)
Lemma stop_twice_leaves_connecting_socket :
  let acc := accepts_ws_urls in
  let connecting :=
    fst (run acc [CallStartConversation;
                  SignedUrlSettled (Resolved signed_url_body)] init) in
  let once := fst (run acc [CallStopConversation] connecting) in
  let twice := fst (run acc [CallStopConversation; CallStopConversation]
                      connecting) in
  websocketRef connecting = Some 0%nat
  /\ readyState_of 0 connecting = CONNECTING
  /\ twice = once
  /\ readyState_of 0 twice = CONNECTING
  /\ snd (run acc [CallStopConversation; CallStopConversation] connecting)
     = [StopStreaming; StopStreaming]
  /\ snd (run acc [SocketOpen 0; StartStreamingSettled true] twice)
     = [WsSend 0 initiation; StartStreaming]
  /\ isRecording
       (fst (run acc [SocketOpen 0; StartStreamingSettled true] twice)) = true.
Proof. cbv zeta. repeat (split; [vm_compute; reflexivity|]). vm_compute; reflexivity. Qed.

(** C8, amended. A second [stopConversation] right after a first one
    returns normally, leaves the session exactly as the first left it
    and does nothing but call [stopStreaming()] again.  After the first
    call the session is Idle: the socket handle is dropped, the flags
    are reset, [stopStreaming()] has been called, and nothing was
    thrown.  A socket that was held and open has been closed; a held
    socket that was not open, or no socket, leaves every socket as it
    was, with [stopStreaming()] the only effect.  On a session that is
    already Idle the call changes nothing and its only effect is the
    [stopStreaming()] call. *)
Theorem stopConversation_idempotent (s : Session) :
  let s1 := state_after stopConversation s in
  result_of stopConversation s = Ok tt
  /\ stopConversation s1 = (Ok tt, s1, [StopStreaming])
  /\ idle s1
  /\ socket_active s1 = false
  /\ In StopStreaming (effects_of stopConversation s)
  /\ (forall w, websocketRef s = Some w -> readyState_of w s = OPEN ->
        readyState_of w s1 = CLOSING
        /\ effects_of stopConversation s = [WsClose w; StopStreaming])
  /\ (idle s -> stopConversation s = (Ok tt, s, [StopStreaming]))
  /\ (socket_active s = false ->
      sockets s1 = sockets s
      /\ effects_of stopConversation s = [StopStreaming]).
Proof.
  intros s1.
  assert (In StopStreaming (effects_of stopConversation s)) as Hstop.
  { unfold effects_of. destruct (socket_active s) eqn:Ea.
    - unfold socket_active in Ea.
      destruct (websocketRef s) as [w|] eqn:Ew; [|done].
      rewrite (stopConversation_open s w Ew) by (by destruct (readyState_of w s)).
      cbn. tauto.
    - rewrite (stopConversation_not_open s Ea). cbn. tauto. }
  destruct (stopConversation_leaves_idle s) as [R I]. fold s1 in I.
  assert (socket_active s1 = false) as A1.
  { unfold socket_active. by destruct I as [-> _]. }
  split; [done|]. split.
  { rewrite (stopConversation_not_open s1 A1).
    destruct I as (I1 & I2 & I3). destruct s1; cbn in *. by subst. }
  split; [done|]. split; [done|]. split; [done|]. split.
  - intros w Hw Ho. unfold s1, state_after, effects_of.
    rewrite (stopConversation_open s w Hw Ho). cbn. split; [|done].
    apply (readyState_of_set_same w CLOSING s).
    apply readyState_of_live. by rewrite Ho.
  - split.
    + intros (I1 & I2 & I3).
      rewrite stopConversation_not_open by (unfold socket_active; by rewrite I1).
      destruct s; cbn in *. by subst.
    + intros Ea. unfold s1, state_after, effects_of.
      by rewrite (stopConversation_not_open s Ea).
Qed.

Lemma stopConversation_idempotent_witness :
  websocketRef active_session = Some 0%nat
  /\ readyState_of 0 active_session = OPEN
  /\ readyState_of 0 (state_after stopConversation active_session) = CLOSING
  /\ idle init
  /\ stopConversation init = (Ok tt, init, [StopStreaming]).
Proof.
  split; [reflexivity|]. split; [reflexivity|]. split.
  - exact (proj1 (proj1 (proj2 (proj2 (proj2 (proj2 (proj2
      (stopConversation_idempotent active_session)))))) 0%nat eq_refl eq_refl)).
  - split; [by repeat split|].
    apply (proj1 (proj2 (proj2 (proj2 (proj2 (proj2 (proj2
      (stopConversation_idempotent init)))))))).
    by repeat split.
Defined.

(** ** Failures at the control entry points *)

Section StartFailures.
Variable WebSocket_accepts : value -> bool.

Lemma startConversation_resumed_Failed s :
  startConversation_resumed WebSocket_accepts Failed s
  = (Ok tt, s, [ConsoleError "Failed to start conversation:" RequestFailed]).
Proof. reflexivity. Qed.

Lemma startConversation_resumed_no_url data u s :
  get_prop data "signedUrl" = Ok u -> truthy u = false ->
  startConversation_resumed WebSocket_accepts (Resolved data) s
  = (Ok tt, s,
     [ConsoleError "Failed to start conversation:"
        (Error "Signed URL not provided")]).
Proof.
  intros Hu Hf. unfold startConversation_resumed, await. unfold_monad.
  rewrite Hu. cbn. by rewrite Hf.
Qed.

Lemma startConversation_resumed_connects data u s :
  get_prop data "signedUrl" = Ok u -> truthy u = true ->
  WebSocket_accepts u = true ->
  startConversation_resumed WebSocket_accepts (Resolved data) s
  = (Ok tt,
     with_websocketRef (Some (length (sockets s)))
       (with_sockets (fun l => l ++ [mkWebSocket u CONNECTING]) s),
     [NewWebSocket (length (sockets s)) u]).
Proof.
  intros Hu Ht Ha. unfold startConversation_resumed, await, new_WebSocket.
  unfold_monad. rewrite Hu. cbn. rewrite Ht. cbn. by rewrite Ha.
Qed.

(** Whatever the response, the continuation of [startConversation]
    returns normally; unless it connects, it only logs. *)
Lemma startConversation_resumed_cases r s :
  (exists e, startConversation_resumed WebSocket_accepts r s
             = (Ok tt, s, [ConsoleError "Failed to start conversation:" e]))
  \/ (exists u, startConversation_resumed WebSocket_accepts r s
             = (Ok tt,
                with_websocketRef (Some (length (sockets s)))
                  (with_sockets (fun l => l ++ [mkWebSocket u CONNECTING]) s),
                [NewWebSocket (length (sockets s)) u])).
Proof.
  destruct r as [data|]; [|left; eexists; reflexivity].
  unfold startConversation_resumed, await, new_WebSocket. unfold_monad.
  destruct (get_prop data "signedUrl") as [u|e] eqn:Hu; cbn;
    [|left; eexists; reflexivity].
  destruct (truthy u); cbn; [|left; eexists; reflexivity].
  destruct (WebSocket_accepts u) eqn:Ha; cbn.
  - right. by exists u.
  - left. eexists. reflexivity.
Qed.

Lemma sendTextMessage_resumed_returns r s :
  result_of (sendTextMessage_resumed r) s = Ok tt.
Proof.
  unfold result_of. destruct r as [data|]; [|reflexivity].
  unfold sendTextMessage_resumed, await, audioQueue_push, setMessages_append,
    console_error.
  unfold_monad.
  destruct (get_prop data "audio") as [a|e]; cbn; [|done].
  destruct (get_prop data "format") as [b|e]; cbn; [|done].
  destruct (truthy a); cbn; [|done].
  by destruct (maybePlayNextAudio_ok
                 (with_audioQueueRef (audioQueueRef s ++ [a]) s))
    as (s1 & t & ->).
Qed.

Lemma stopConversation_returns s : result_of stopConversation s = Ok tt.
Proof. exact (proj1 (stopConversation_leaves_idle s)). Qed.

Lemma startConversation_returns s : result_of startConversation s = Ok tt.
Proof.
  unfold result_of, startConversation. unfold_monad.
  by destruct (isConnected s).
Qed.

Lemma sendTextMessage_returns text s :
  result_of (sendTextMessage text) s = Ok tt.
Proof.
  unfold result_of, sendTextMessage, setMessages_append. unfold_monad.
  by destruct (truthy text).
Qed.
End StartFailures.

(** C4 as stated fails: when the signed-URL request is rejected, or
    resolves without a URL, the Message log stays empty; the error goes
    to the console. *)
Lemma start_failure_leaves_log_empty :
  run accepts_ws_urls [CallStartConversation; SignedUrlSettled Failed] init
  = (init, [HttpGet "/api/signed-url";
            ConsoleError "Failed to start conversation:" RequestFailed])
  /\ run accepts_ws_urls
       [CallStartConversation; SignedUrlSettled (Resolved (VObj []))] init
     = (init, [HttpGet "/api/signed-url";
               ConsoleError "Failed to start conversation:"
                 (Error "Signed URL not provided")])
  /\ messages init = [].
Proof. split; [reflexivity|]. split; reflexivity. Qed.

(** C4, amended. No control entry point throws, before or after its
    [await].  A failure of [startConversation] (request rejected, no URL
    in the response, URL refused by the socket constructor) is caught and
    written to the console: the Message log and the rest of the session
    are left as they were.  Only a rejected synthesis call in
    [sendTextMessage] surfaces in the Message log, as the failure
    notice. *)
Theorem entry_point_failures (acc : value -> bool) (s : Session) :
  result_of startConversation s = Ok tt
  /\ (forall r, result_of (startConversation_resumed acc r) s = Ok tt)
  /\ result_of stopConversation s = Ok tt
  /\ (forall text, result_of (sendTextMessage text) s = Ok tt)
  /\ (forall r, result_of (sendTextMessage_resumed r) s = Ok tt)
  /\ startConversation_resumed acc Failed s
     = (Ok tt, s, [ConsoleError "Failed to start conversation:" RequestFailed])
  /\ (forall data u,
        get_prop data "signedUrl" = Ok u -> truthy u = false ->
        startConversation_resumed acc (Resolved data) s
        = (Ok tt, s, [ConsoleError "Failed to start conversation:"
                        (Error "Signed URL not provided")]))
  /\ (forall data u,
        get_prop data "signedUrl" = Ok u -> acc u = false ->
        exists e, startConversation_resumed acc (Resolved data) s
        = (Ok tt, s, [ConsoleError "Failed to start conversation:" e]))
  /\ (forall r, messages (state_after (startConversation_resumed acc r) s)
                = messages s)
  /\ sendTextMessage_resumed Failed s
     = (Ok tt, with_messages (fun l => l ++ [failure_notice]) s,
        [ConsoleError "Failed to perform TTS:" RequestFailed]).
Proof.
  split; [apply startConversation_returns|]. split.
  { intros r. unfold result_of.
    by destruct (startConversation_resumed_cases acc r s) as [[e ->]|[u ->]]. }
  split; [apply stopConversation_returns|].
  split; [intros; apply sendTextMessage_returns|].
  split; [intros; apply sendTextMessage_resumed_returns|].
  split; [reflexivity|].
  split; [intros data u; apply startConversation_resumed_no_url|]. split.
  { intros data u Hu Ha.
    unfold startConversation_resumed, await, new_WebSocket. unfold_monad.
    rewrite Hu. cbn. destruct (truthy u); cbn; [|eexists; reflexivity].
    rewrite Ha. eexists. reflexivity. }
  split; [|reflexivity].
  intros r. unfold state_after.
  by destruct (startConversation_resumed_cases acc r s) as [[e ->]|[u ->]].
Qed.

Lemma entry_point_failures_witness :
  get_prop (VObj [("error", VStr "Failed to obtain signed URL")]) "signedUrl"
    = Ok VUndefined
  /\ truthy VUndefined = false
  /\ startConversation_resumed accepts_ws_urls
       (Resolved (VObj [("error", VStr "Failed to obtain signed URL")])) init
     = (Ok tt, init, [ConsoleError "Failed to start conversation:"
                        (Error "Signed URL not provided")]).
Proof.
  split; [reflexivity|]. split; [reflexivity|].
  exact (proj1 (proj2 (proj2 (proj2 (proj2 (proj2 (proj2
    (entry_point_failures accepts_ws_urls init)))))))
    (VObj [("error", VStr "Failed to obtain signed URL")]) VUndefined
    eq_refl eq_refl).
Defined.

(** ** The event loop *)

#[local] Arguments readyState_of : simpl never.

Section EventLoop.
Variable acc : value -> bool.

Lemma run_cons ev evs s :
  run acc (ev :: evs) s
  = (fst (run acc evs (fst (step acc ev s))),
     snd (step acc ev s) ++ snd (run acc evs (fst (step acc ev s)))).
Proof.
  change (run acc (ev :: evs) s)
    with (let '(s1, t1) := step acc ev s in
          let '(s2, t2) := run acc evs s1 in (s2, t1 ++ t2)).
  destruct (step acc ev s) as [s1 t1]. cbn [fst snd].
  by destruct (run acc evs s1) as [s2 t2].
Qed.

Lemma run_app_fst evs1 evs2 s :
  fst (run acc (evs1 ++ evs2) s) = fst (run acc evs2 (fst (run acc evs1 s))).
Proof.
  revert s. induction evs1 as [|ev evs1 IH]; intros s; [done|].
  rewrite <- app_comm_cons, !run_cons. cbn [fst]. apply IH.
Qed.

Lemma run_app_snd evs1 evs2 s :
  snd (run acc (evs1 ++ evs2) s)
  = snd (run acc evs1 s) ++ snd (run acc evs2 (fst (run acc evs1 s))).
Proof.
  revert s. induction evs1 as [|ev evs1 IH]; intros s; [done|].
  rewrite <- app_comm_cons, !run_cons. cbn [fst snd].
  by rewrite IH, app_assoc.
Qed.

Lemma readyState_of_sockets ws s s' :
  sockets s = sockets s' -> readyState_of ws s = readyState_of ws s'.
Proof. unfold readyState_of. by intros ->. Qed.

(** *** Malformed frames *)

Lemma onmessage_garbage ws raw s :
  onmessage ws (Garbage raw) s = (Thrown SyntaxError, s, []).
Proof. reflexivity. Qed.

Lemma step_garbage ws raw s :
  step acc (SocketMessage ws (Garbage raw)) s
  = (s, if is_OPEN (readyState_of ws s) then [Uncaught SyntaxError] else []).
Proof.
  unfold step. cbn [enabled deliver].
  by destruct (is_OPEN (readyState_of ws s)).
Qed.

(** C2, amended. On a frame whose payload does not parse, [ws.onmessage]
    throws the SyntaxError of [JSON.parse] before it touches anything.
    The event loop reports the uncaught exception and goes on: the
    session after the frame is the session before it, so an Active
    channel stays Active, and a run with the malformed frame anywhere in
    it ends in the same session and produces the same effects in the
    same order as the run without it, apart from the one report. *)
Theorem malformed_frame_dropped
    (ws : nat) (raw : string) (s : Session) (before after : list Event) :
  let bad := SocketMessage ws (Garbage raw) in
  let mid := fst (run acc before s) in
  onmessage ws (Garbage raw) s = (Thrown SyntaxError, s, [])
  /\ fst (step acc bad s) = s
  /\ socket_active (fst (step acc bad s)) = socket_active s
  /\ fst (run acc (before ++ bad :: after) s) = fst (run acc (before ++ after) s)
  /\ snd (run acc (before ++ after) s) = snd (run acc before s) ++ snd (run acc after mid)
  /\ snd (run acc (before ++ bad :: after) s)
     = snd (run acc before s)
       ++ (if is_OPEN (readyState_of ws mid) then [Uncaught SyntaxError] else [])
       ++ snd (run acc after mid).
Proof.
  intros bad mid. split; [reflexivity|].
  assert (forall s0, fst (step acc bad s0) = s0) as Hs
    by (intros s0; unfold bad; by rewrite step_garbage).
  split; [apply Hs|]. split; [by rewrite Hs|]. split.
  - rewrite !run_app_fst, run_cons. cbn [fst]. by rewrite Hs.
  - split; [apply run_app_snd|].
    rewrite run_app_snd, run_cons. cbn [snd]. fold mid. rewrite Hs.
    unfold bad. by rewrite step_garbage.
Qed.

(** *** Well-formed frames *)

Lemma step_ping ws id s :
  readyState_of ws s = OPEN ->
  step acc (SocketMessage ws (ping_frame id)) s
  = (s, [WsSend ws (JSON_stringify [("type", VStr "pong"); ("event_id", id)])]).
Proof.
  intros H. unfold step. cbn [enabled]. rewrite H. cbn [is_OPEN].
  unfold deliver, onmessage, ping_frame, ws_send. unfold_monad. cbn.
  by rewrite H.
Qed.

Lemma step_user_transcript ws t s :
  readyState_of ws s = OPEN -> truthy t = true ->
  step acc (SocketMessage ws (user_transcript_frame t)) s
  = (with_messages (fun l => l ++ [user_message t]) s, []).
Proof.
  intros H Ht. unfold step. cbn [enabled]. rewrite H. cbn [is_OPEN].
  unfold deliver, onmessage, user_transcript_frame, setMessages_append.
  unfold_monad. cbn. by rewrite Ht.
Qed.

Lemma step_agent_response ws t s :
  readyState_of ws s = OPEN -> truthy t = true ->
  step acc (SocketMessage ws (agent_response_frame t)) s
  = (with_messages (fun l => l ++ [agent_message t]) s, []).
Proof.
  intros H Ht. unfold step. cbn [enabled]. rewrite H. cbn [is_OPEN].
  unfold deliver, onmessage, agent_response_frame, setMessages_append.
  unfold_monad. cbn. by rewrite Ht.
Qed.

Lemma step_audio ws a s :
  readyState_of ws s = OPEN -> truthy a = true ->
  step acc (SocketMessage ws (audio_frame a)) s
  = (seq_step (Enqueue a) s, effects_of (seq_deliver (Enqueue a)) s).
Proof.
  intros H Ht. unfold step. cbn [enabled]. rewrite H. cbn [is_OPEN].
  unfold seq_step, effects_of. cbn [seq_enabled]. rewrite seq_deliver_Enqueue.
  unfold deliver, onmessage, audio_frame, audioQueue_push.
  unfold_monad. cbn. rewrite Ht.
  by destruct (maybePlayNextAudio_ok (with_audioQueueRef (audioQueueRef s ++ [a]) s))
    as (s1 & t & ->).
Qed.

Lemma enqueue_when_idle a s :
  isAudioPlayingRef s = false -> audioQueueRef s = [] -> truthy a = true ->
  seq_deliver (Enqueue a) s
  = (Ok tt,
     with_audios (fun l => l ++ [mkAudio a Playing])
       (with_isAudioPlayingRef true s),
     [AudioPlay (length (audios s)) a]).
Proof.
  intros Hp Hq Ht. rewrite seq_deliver_Enqueue.
  rewrite (maybePlayNextAudio_next _ a []) by (by rewrite ?Hq).
  destruct s; cbn in *. by subst.
Qed.

Lemma enqueue_when_busy a s :
  isAudioPlayingRef s = true ->
  seq_deliver (Enqueue a) s
  = (Ok tt, with_audioQueueRef (audioQueueRef s ++ [a]) s, []).
Proof.
  intros Hp. rewrite seq_deliver_Enqueue.
  by rewrite maybePlayNextAudio_busy.
Qed.

(** The element made last is playing and the queue is not empty: when it
    ends or fails, the head of the queue is played. *)
Lemma completion_plays_next (failed : bool) l f next rest s :
  audios s = l ++ [mkAudio f Playing] ->
  audioQueueRef s = next :: rest -> truthy next = true ->
  let ev := if failed then PlayRejected (length l) else AudioEnded (length l) in
  let st := if failed then Rejected else Ended in
  let s' := fst (step acc ev s) in
  audios s' = l ++ [mkAudio f st; mkAudio next Playing]
  /\ audioQueueRef s' = rest
  /\ isAudioPlayingRef s' = true
  /\ messages s' = messages s
  /\ snd (step acc ev s) = [AudioPlay (S (length l)) next].
Proof.
  intros Ha Hq Ht ev st s'.
  assert (audios s !! length l = Some (mkAudio f Playing)) as Hk
    by (rewrite Ha; apply list_lookup_middle; done).
  set (s1 := with_isAudioPlayingRef false (set_status (length l) st s)).
  assert (audios s1 = l ++ [mkAudio f st]) as Ha1.
  { unfold s1, set_status. cbn. rewrite Hk, Ha. cbn.
    rewrite insert_app_r_alt by lia. by rewrite Nat.sub_diag. }
  assert (step acc ev s
          = (with_audios (fun l => l ++ [mkAudio next Playing])
               (with_isAudioPlayingRef true (with_audioQueueRef rest s1)),
             [AudioPlay (length (audios s1)) next])) as E.
  { unfold step.
    assert (enabled ev s = true) as ->.
    { unfold ev. destruct failed; cbn [enabled]; unfold status_of;
        by rewrite Hk. }
    assert (deliver acc ev s = maybePlayNextAudio s1) as ->.
    { unfold ev, st, s1, st. destruct failed; cbn [deliver];
        unfold audio_play_catch, audio_onended, bind, modify;
        by destruct (maybePlayNextAudio _) as [[r s2] t2]. }
    by rewrite (maybePlayNextAudio_next s1 next rest). }
  assert (messages s1 = messages s) as Hm1 by reflexivity.
  unfold s'. rewrite E. clearbody s1. cbn. rewrite Ha1, Hm1, length_app. cbn.
  rewrite <- app_assoc. cbn. rewrite Nat.add_1_r. done.
Qed.

(** C6. From any session whose socket [ws] is open and whose sequencer
    is at rest, the frames ping(7), user_transcript("hi"), audio(A),
    agent_response("hello"), audio(B), for fragments A and B that are
    truthy, append exactly the user message "hi" and then the agent
    message "hello" to the log; the only frame sent is one pong with
    event_id 7, and the ping leaves the whole session as it was;
    playback of A begins at once while B waits in the queue, and B
    begins exactly when A has ended or failed, so the two never play
    together. *)
Theorem relay_example (s : Session) (ws : nat) (A B : value) :
  readyState_of ws s = OPEN ->
  audioQueueRef s = [] -> isAudioPlayingRef s = false ->
  truthy A = true -> truthy B = true ->
  let frames :=
    [SocketMessage ws (ping_frame (VNum 7));
     SocketMessage ws (user_transcript_frame (VStr "hi"));
     SocketMessage ws (audio_frame A);
     SocketMessage ws (agent_response_frame (VStr "hello"));
     SocketMessage ws (audio_frame B)] in
  let s' := fst (run acc frames s) in
  let k := length (audios s) in
  messages s'
  = messages s ++ [user_message (VStr "hi"); agent_message (VStr "hello")]
  /\ snd (run acc frames s) = [WsSend ws (pong (VNum 7)); AudioPlay k A]
  /\ step acc (SocketMessage ws (ping_frame (VNum 7))) s
     = (s, [WsSend ws (pong (VNum 7))])
  /\ audios s' = audios s ++ [mkAudio A Playing]
  /\ audioQueueRef s' = [B]
  /\ isAudioPlayingRef s' = true
  /\ (forall failed : bool,
        let ev := if failed then PlayRejected k else AudioEnded k in
        let s'' := fst (step acc ev s') in
        audios s''
        = audios s ++ [mkAudio A (if failed then Rejected else Ended);
                       mkAudio B Playing]
        /\ audioQueueRef s'' = []
        /\ isAudioPlayingRef s'' = true
        /\ messages s'' = messages s'
        /\ snd (step acc ev s') = [AudioPlay (S k) B]).
Proof.
  intros Ho Hq Hp HA HB frames s' k.
  pose proof (step_ping ws (VNum 7) s Ho) as E1.
  change (JSON_stringify _) with (pong (VNum 7)) in E1.
  set (s2 := with_messages (fun l => l ++ [user_message (VStr "hi")]) s).
  pose proof (step_user_transcript ws (VStr "hi") s Ho eq_refl) as E2.
  fold s2 in E2.
  set (s3 := with_audios (fun l => l ++ [mkAudio A Playing])
               (with_isAudioPlayingRef true s2)).
  assert (step acc (SocketMessage ws (audio_frame A)) s2
          = (s3, [AudioPlay k A])) as E3.
  { rewrite step_audio by done. unfold seq_step, effects_of.
    cbn [seq_enabled]. by rewrite (enqueue_when_idle A s2). }
  set (s4 := with_messages (fun l => l ++ [agent_message (VStr "hello")]) s3).
  pose proof (step_agent_response ws (VStr "hello") s3 Ho eq_refl) as E4.
  fold s4 in E4.
  set (s5 := with_audioQueueRef (audioQueueRef s4 ++ [B]) s4).
  assert (step acc (SocketMessage ws (audio_frame B)) s4 = (s5, [])) as E5.
  { rewrite step_audio by done. unfold seq_step, effects_of.
    cbn [seq_enabled]. by rewrite (enqueue_when_busy B s4). }
  assert (run acc frames s = (s5, [WsSend ws (pong (VNum 7)); AudioPlay k A])) as E.
  { unfold frames.
    rewrite run_cons, E1. cbn [fst snd].
    rewrite run_cons, E2. cbn [fst snd].
    rewrite run_cons, E3. cbn [fst snd].
    rewrite run_cons, E4. cbn [fst snd].
    rewrite run_cons, E5. cbn [fst snd]. reflexivity. }
  assert (audios s5 = audios s ++ [mkAudio A Playing]) as Ha5 by reflexivity.
  assert (audioQueueRef s5 = [B]) as Hq5 by (cbn; by rewrite Hq).
  unfold s'. rewrite E. cbn [fst snd].
  split; [cbn; by rewrite <- app_assoc|]. split; [done|]. split; [done|].
  split; [done|]. split; [done|]. split; [done|].
  intros failed.
  destruct (completion_plays_next failed (audios s) A B [] s5 Ha5 Hq5 HB)
    as (C1 & C2 & C3 & C4 & C5).
  fold k in C1, C2, C3, C4, C5.
  destruct failed; done.
Qed.

End EventLoop.

Lemma relay_example_witness :
  readyState_of 0 active_session = OPEN
  /\ audioQueueRef active_session = []
  /\ isAudioPlayingRef active_session = false
  /\ truthy (VStr "QUFB") = true /\ truthy (VStr "QkJC") = true
  /\ messages (fst (run accepts_ws_urls
       [SocketMessage 0 (ping_frame (VNum 7));
        SocketMessage 0 (user_transcript_frame (VStr "hi"));
        SocketMessage 0 (audio_frame (VStr "QUFB"));
        SocketMessage 0 (agent_response_frame (VStr "hello"));
        SocketMessage 0 (audio_frame (VStr "QkJC"))] active_session))
     = [user_message (VStr "hi"); agent_message (VStr "hello")].
Proof.
  repeat (split; [reflexivity|]).
  exact (proj1 (relay_example accepts_ws_urls active_session 0
                  (VStr "QUFB") (VStr "QkJC")
                  eq_refl eq_refl eq_refl eq_refl eq_refl)).
Defined.

(** C2 as stated fails: on a malformed payload the handler does throw.
    Nothing in [ws.onmessage] catches the SyntaxError, which leaves the
    callback and is reported by the event loop. *)
Lemma malformed_frame_throws :
  result_of (onmessage 0 (Garbage "{oops")) active_session = Thrown SyntaxError
  /\ step accepts_ws_urls (SocketMessage 0 (Garbage "{oops")) active_session
     = (active_session, [Uncaught SyntaxError]).
Proof. split; reflexivity. Qed.

(** ** Properties kept by callbacks *)

Section Keeps.
Context (P : Session -> Prop) (E : Effect -> Prop).

Lemma keeps_ret {A} (a : A) : keeps P E (ret a).
Proof. intros s H. by split. Qed.

Lemma keeps_throw {A} (e : Exn) : keeps P E (@throw A e).
Proof. intros s H. by split. Qed.

Lemma keeps_lift {A} (r : Res A) : keeps P E (lift r).
Proof. intros s H. by split. Qed.

Lemma keeps_gets {A} (f : Session -> A) : keeps P E (gets f).
Proof. intros s H. by split. Qed.

Lemma keeps_modify (f : Session -> Session) :
  (forall s, P s -> P (f s)) -> keeps P E (modify f).
Proof. intros Hf s H. split; [by apply Hf | constructor]. Qed.

Lemma keeps_emit (e : Effect) : E e -> keeps P E (emit e).
Proof. intros He s H. split; [done | by repeat constructor]. Qed.

Lemma keeps_bind {A B} (m : M A) (f : A -> M B) :
  keeps P E m -> (forall a, keeps P E (f a)) -> keeps P E (bind m f).
Proof.
  intros Hm Hf s H. destruct (Hm s H) as [H1 H2]. unfold bind.
  destruct (m s) as [[[a|e] s1] t1]; cbn in *; [|done].
  destruct (Hf a s1 H1) as [H3 H4].
  destruct (f a s1) as [[r s2] t2]; cbn in *.
  split; [done | by apply Forall_app].
Qed.

Lemma keeps_try_catch {A} (m : M A) (h : Exn -> M A) :
  keeps P E m -> (forall e, keeps P E (h e)) -> keeps P E (try_catch m h).
Proof.
  intros Hm Hh s H. destruct (Hm s H) as [H1 H2]. unfold try_catch.
  destruct (m s) as [[[a|e] s1] t1]; cbn in *; [done|].
  destruct (Hh e s1 H1) as [H3 H4].
  destruct (h e s1) as [[r s2] t2]; cbn in *.
  split; [done | by apply Forall_app].
Qed.

Section Loop.
Variable WebSocket_accepts : value -> bool.
Variable allowed : Event -> bool.
Hypothesis report_ok : forall e, E (Uncaught e).
Hypothesis deliver_ok :
  forall ev s, allowed ev = true -> P s -> enabled ev s = true ->
    P (state_after (deliver WebSocket_accepts ev) s)
    /\ Forall E (effects_of (deliver WebSocket_accepts ev) s).

Lemma step_keeps ev s :
  allowed ev = true -> P s ->
  P (fst (step WebSocket_accepts ev s))
  /\ Forall E (snd (step WebSocket_accepts ev s)).
Proof.
  intros Ha H. unfold step. destruct (enabled ev s) eqn:En; [|by split].
  destruct (deliver_ok ev s Ha H En) as [H1 H2].
  unfold state_after, effects_of in *.
  destruct (deliver WebSocket_accepts ev s) as [[[a|e] s1] t1]; cbn in *;
    [done|].
  split; [done|]. apply Forall_app. split; [done|]. by repeat constructor.
Qed.

Lemma run_keeps evs s :
  Forall (fun ev => allowed ev = true) evs -> P s ->
  P (fst (run WebSocket_accepts evs s))
  /\ Forall E (snd (run WebSocket_accepts evs s)).
Proof.
  revert s. induction evs as [|ev evs IH]; intros s Hall H; [by split|].
  inversion Hall as [|? ? Hev Hrest]; subst.
  destruct (step_keeps ev s Hev H) as [H1 H2].
  rewrite run_cons. cbn [fst snd].
  destruct (IH _ Hrest H1) as [H3 H4].
  split; [done | by apply Forall_app].
Qed.
End Loop.
End Keeps.

(** Structural proof search for [keeps]: [side] solves what [modify] and
    [emit] leave. *)
Ltac keeps_walk leaf side :=
  repeat first
    [ solve [leaf]
    | apply keeps_ret | apply keeps_throw | apply keeps_lift
    | apply keeps_gets
    | apply keeps_bind | apply keeps_try_catch
    | apply keeps_modify; [solve [side]]
    | apply keeps_emit; [solve [side]]
    | progress intros
    | match goal with
      | |- keeps _ _ (match ?x with _ => _ end) => destruct x
      end ].

Ltac unfold_callbacks :=
  unfold deliver, startConversation, startConversation_resumed, new_WebSocket,
    stopConversation, sendTextMessage, sendTextMessage_resumed, await,
    onopen, onopen_resumed, onmessage, onclose, onAudioChunked,
    audio_onended, audio_play_catch, audioQueue_push,
    ws_send, ws_close, stopStreaming, startStreaming_call, console_error,
    setMessages_append, setIsRecording, setIsConnected;
  cbv zeta.

(** *** The socket handle stays cleared *)





Lemma onAudioChunked_inactive audioData s :
  socket_active s = false -> onAudioChunked audioData s = (Ok tt, s, []).
Proof.
  unfold socket_active, onAudioChunked. unfold_monad.
  destruct (websocketRef s) as [w|]; [|done].
  by destruct (readyState_of w s).
Qed.


Lemma onclose_clears s : no_socket_held (state_after onclose s).
Proof. reflexivity. Qed.




(** *** After a stop *)

Lemma no_live_socket_readyState s ws :
  no_live_socket s -> live (readyState_of ws s) = false.
Proof.
  unfold no_live_socket, readyState_of. intros H.
  destruct (sockets s !! ws) as [x|] eqn:Hx; [|done]. cbn.
  by apply (Forall_lookup_1 _ _ _ _ H Hx).
Qed.

Lemma no_live_socket_set w st s :
  live st = false -> no_live_socket s -> no_live_socket (set_readyState w st s).
Proof.
  unfold no_live_socket, set_readyState. cbn. intros Hst H.
  destruct (sockets s !! w) as [x|]; [|done].
  by apply Forall_insert.
Qed.

Lemma no_live_socket_inactive s : no_live_socket s -> socket_active s = false.
Proof.
  intros H. unfold socket_active. destruct (websocketRef s) as [w|]; [|done].
  pose proof (no_live_socket_readyState s w H). by destruct (readyState_of w s).
Qed.

Section Stopped.
Variable q0 : list value.

Lemma maybePlayNextAudio_keeps_stopped :
  keeps (stopped q0) not_conversation_effect maybePlayNextAudio.
Proof.
  intros s (H1 & H2 & H3 & n & H4).
  destruct (isAudioPlayingRef s) eqn:Ep.
  { rewrite maybePlayNextAudio_busy by done. cbn [fst snd].
    by repeat split; eauto. }
  destruct (audioQueueRef s) as [|next rest] eqn:Eq.
  { rewrite maybePlayNextAudio_empty by done. cbn [fst snd].
    repeat split; eauto. exists n. by rewrite Eq. }
  assert (rest = drop (S n) q0) as Hrest.
  { rewrite <- Nat.add_1_l, Nat.add_comm, <- drop_drop, <- H4. done. }
  unfold maybePlayNextAudio, audio_play. unfold_monad. rewrite Ep, Eq. cbn.
  destruct (truthy next); cbn.
  - split; [|by repeat constructor]. repeat split; eauto.
  - split; [|constructor]. repeat split; eauto.
Qed.

Lemma onAudioChunked_keeps_stopped audioData :
  keeps (stopped q0) not_conversation_effect (onAudioChunked audioData).
Proof.
  intros s H. rewrite onAudioChunked_inactive.
  - by split.
  - apply no_live_socket_inactive. by destruct H.
Qed.

Lemma callbacks_keep_stopped acc ev :
  match ev with
  | CallStopConversation | SocketClose _ | StartStreamingSettled _
  | MicFrame _ | AudioEnded _ | PlayRejected _ => True
  | _ => False
  end ->
  keeps (stopped q0) not_conversation_effect (deliver acc ev).
Proof.
  destruct ev; intros []; cbn [deliver];
    first
      [ apply onAudioChunked_keeps_stopped
      | unfold_callbacks;
        keeps_walk
          ltac:(apply maybePlayNextAudio_keeps_stopped)
          ltac:(first
            [ reflexivity
            | let s0 := fresh "s" in
              let H := fresh "H" in
              intros s0 H;
              first
                [ exact H
                | destruct H as (? & ? & ? & ?);
                  split; [by apply no_live_socket_set | by repeat split] ] ]) ].
Qed.

Lemma deliver_keeps_stopped acc ev s :
  is_user_call ev = false -> stopped q0 s -> enabled ev s = true ->
  stopped q0 (state_after (deliver acc ev) s)
  /\ Forall not_conversation_effect (effects_of (deliver acc ev) s).
Proof.
  intros Hu H En.
  assert (forall ws, live (readyState_of ws s) = false) as Hdead
    by (intros ws; apply no_live_socket_readyState; by destruct H).
  pose proof H as (H1 & H2 & H3 & H4).
  destruct ev as [| |text|r|r|ws|ws d|ws|ok|audioData|k|k];
    try discriminate Hu; cbn [enabled] in En;
    try (by apply callbacks_keep_stopped).
  - by rewrite H2 in En.
  - by rewrite H3 in En.
  - specialize (Hdead ws). by destruct (readyState_of ws s).
  - specialize (Hdead ws). by destruct (readyState_of ws s).
Qed.
End Stopped.

Lemma run_keeps_stopped q0 acc evs s :
  Forall (fun ev => is_user_call ev = false) evs -> stopped q0 s ->
  stopped q0 (fst (run acc evs s))
  /\ Forall not_conversation_effect (snd (run acc evs s)).
Proof.
  intros Hall H.
  apply (run_keeps (stopped q0) not_conversation_effect acc
           (fun ev => negb (is_user_call ev))); try done.
  - intros ev s0 Ha H0 En. apply deliver_keeps_stopped; try done.
    by destruct (is_user_call ev).
  - eapply Forall_impl; [exact Hall|]. cbn. by intros ev ->.
Qed.

Lemma stopped_after_stop s w :
  websocketRef s = Some w -> readyState_of w s = OPEN ->
  (forall w', w' <> w -> live (readyState_of w' s) = false) ->
  pendingSignedUrl s = 0%nat -> pendingTts s = 0%nat ->
  stopped (audioQueueRef s) (state_after stopConversation s).
Proof.
  intros Hw Ho Hothers Hp1 Hp2. unfold state_after.
  rewrite (stopConversation_open s w Hw Ho). cbn [fst snd].
  split; [|split; [done|split; [done|by exists 0%nat]]].
  unfold no_live_socket. apply Forall_lookup_2. intros i x Hx. cbn in Hx.
  destruct (sockets s !! w) as [y|] eqn:Hy.
  - destruct (decide (i = w)) as [->|Hne].
    + rewrite list_lookup_insert_eq in Hx by (by eapply lookup_lt_Some).
      by inversion Hx.
    + rewrite list_lookup_insert_ne in Hx by done.
      specialize (Hothers i Hne). unfold readyState_of in Hothers.
      by rewrite Hx in Hothers.
  - unfold readyState_of in Ho. by rewrite Hy in Ho.
Qed.

(** C3 as stated fails.  Stopped while its socket is still connecting,
    the hook leaves the socket connecting; when it opens, the initiation
    message is sent, capture is started and inbound audio is queued and
    played.  Stopped while the signed-URL request is pending, the hook
    later creates the socket all the same and microphone frames are sent
    on it. *)
Lemma stop_mid_flight_goes_on :
  let acc := accepts_ws_urls in
  let connecting :=
    fst (run acc [CallStartConversation;
                  SignedUrlSettled (Resolved signed_url_body)] init) in
  let fetching := fst (run acc [CallStartConversation] init) in
  readyState_of 0 connecting = CONNECTING
  /\ step acc CallStopConversation connecting
     = (with_websocketRef None connecting, [StopStreaming])
  /\ readyState_of 0 (fst (step acc CallStopConversation connecting))
     = CONNECTING
  /\ snd (run acc [CallStopConversation; SocketOpen 0;
                   StartStreamingSettled true;
                   SocketMessage 0 (audio_frame (VStr "QUFB"))] connecting)
     = [StopStreaming; WsSend 0 initiation; StartStreaming;
        AudioPlay 0 (VStr "QUFB")]
  /\ snd (run acc [CallStopConversation;
                   SignedUrlSettled (Resolved signed_url_body); SocketOpen 0;
                   StartStreamingSettled true; MicFrame "AAAA"] fetching)
     = [StopStreaming;
        NewWebSocket 0 (VStr "wss://api.elevenlabs.io/v1/convai/conversation");
        WsSend 0 initiation; StartStreaming;
        WsSend 0 (user_audio_chunk "AAAA")].
Proof. repeat split. Qed.

(** C3, amended. When [stopConversation] is called while the held
    socket is open and nothing else is in flight (no other live socket,
    no pending signed-URL or synthesis request), the call itself closes
    the socket and calls [stopStreaming()], and leaves the session Idle.
    Whatever events follow, short of a new call to [startConversation]
    or [sendTextMessage], cause no request, no new socket, no frame sent
    and no capture start; nothing is appended to the audio queue, which
    only shrinks from its front as queued fragments are played; and the
    channel does not become active again. *)
Theorem stop_when_open_is_final
    (acc : value -> bool) (s : Session) (w : nat) (evs : list Event) :
  websocketRef s = Some w -> readyState_of w s = OPEN ->
  (forall w', w' <> w -> live (readyState_of w' s) = false) ->
  pendingSignedUrl s = 0%nat -> pendingTts s = 0%nat ->
  Forall (fun ev => is_user_call ev = false) evs ->
  let s1 := fst (step acc CallStopConversation s) in
  let s2 := fst (run acc evs s1) in
  snd (step acc CallStopConversation s) = [WsClose w; StopStreaming]
  /\ readyState_of w s1 = CLOSING
  /\ idle s1
  /\ Forall not_conversation_effect (snd (run acc evs s1))
  /\ (exists n, audioQueueRef s2 = drop n (audioQueueRef s))
  /\ no_live_socket s2
  /\ socket_active s2 = false.
Proof.
  intros Hw Ho Hothers Hp1 Hp2 Hall s1 s2.
  assert (step acc CallStopConversation s
          = (state_after stopConversation s, [WsClose w; StopStreaming])) as E.
  { unfold step, state_after. cbn [enabled deliver].
    by rewrite (stopConversation_open s w Hw Ho). }
  pose proof (stopped_after_stop s w Hw Ho Hothers Hp1 Hp2) as Hst.
  assert (s1 = state_after stopConversation s) as E1 by (unfold s1; by rewrite E).
  rewrite <- E1 in Hst.
  destruct (run_keeps_stopped (audioQueueRef s) acc evs s1 Hall Hst)
    as [(K1 & K2 & K3 & K4) K5].
  fold s2 in K1, K2, K3, K4.
  split; [by rewrite E|]. split.
  { rewrite E1. unfold state_after. rewrite (stopConversation_open s w Hw Ho).
    cbn [fst snd]. apply readyState_of_set_same.
    apply readyState_of_live. by rewrite Ho. }
  split; [rewrite E1; apply stopConversation_leaves_idle|].
  split; [done|]. split; [done|]. split; [done|].
  by apply no_live_socket_inactive.
Qed.

Lemma stop_when_open_is_final_witness :
  let evs := [SocketClose 0; StartStreamingSettled true; MicFrame "AAAA";
              CallStopConversation] in
  websocketRef active_session = Some 0%nat
  /\ readyState_of 0 active_session = OPEN
  /\ pendingSignedUrl active_session = 0%nat
  /\ pendingTts active_session = 0%nat
  /\ Forall (fun ev => is_user_call ev = false) evs
  /\ Forall not_conversation_effect
       (snd (run accepts_ws_urls evs
               (fst (step accepts_ws_urls CallStopConversation active_session)))).
Proof.
  repeat (split; [reflexivity|]).
  split; [by repeat constructor|].
  refine (proj1 (proj2 (proj2 (proj2
    (stop_when_open_is_final accepts_ws_urls active_session 0
       [SocketClose 0; StartStreamingSettled true; MicFrame "AAAA";
        CallStopConversation]
       eq_refl eq_refl _ eq_refl eq_refl ltac:(by repeat constructor)))))).
  intros [|w'] Hne; [done | reflexivity].
Defined.

(** ** The sequencer inside the hook

    Every event the hook can receive keeps the sequencer invariant, so
    what holds of the sequencer alone holds at every instant of a
    session. *)









(** * Further properties of the hook *)

Lemma readyState_of_not_closed w s :
  is_CLOSED (readyState_of w s) = false -> (w < length (sockets s))%nat.
Proof.
  unfold readyState_of. intros H. apply lookup_lt_is_Some.
  destruct (sockets s !! w); [eauto | discriminate H].
Qed.

(** When a socket closes, for whatever reason and whether or not it is
    the socket the hook holds, [ws.onclose] returns normally and leaves
    the session Idle: the handle is cleared, both flags are reset and
    [stopStreaming()] is the only effect.  The log, the queue and the
    audio elements are untouched and every other socket keeps its
    state. *)
Theorem socket_close_resets (acc : value -> bool) (s : Session) (ws : nat) :
  enabled (SocketClose ws) s = true ->
  let s' := fst (step acc (SocketClose ws) s) in
  snd (step acc (SocketClose ws) s) = [StopStreaming]
  /\ idle s'
  /\ socket_active s' = false
  /\ readyState_of ws s' = CLOSED
  /\ (forall w, w <> ws -> readyState_of w s' = readyState_of w s)
  /\ playback s' = playback s.
Proof.
  intros En s'. cbn [enabled] in En. apply negb_true_iff in En.
  assert (step acc (SocketClose ws) s
          = (with_isRecording false (with_isConnected false
               (with_websocketRef None (set_readyState ws CLOSED s))),
             [StopStreaming])) as E.
  { unfold step. cbn [enabled]. rewrite En. reflexivity. }
  unfold s'. rewrite E. cbn [fst snd].
  split; [done|]. split; [done|]. split; [done|]. split.
  { apply (readyState_of_set_same ws CLOSED s).
    by apply readyState_of_not_closed. }
  split; [|done].
  intros w Hw. by apply (readyState_of_set_other ws w CLOSED s).
Qed.

Lemma socket_close_resets_witness :
  enabled (SocketClose 0) active_session = true
  /\ idle (fst (step accepts_ws_urls (SocketClose 0) active_session)).
Proof.
  split; [reflexivity|].
  exact (proj1 (proj2 (socket_close_resets accepts_ws_urls active_session 0
                         eq_refl))).
Defined.

(** ** Inbound frames *)






(** Every frame of type "ping" that carries a [ping_event], whatever else
    it carries, is answered on an open socket by exactly one pong that
    echoes the [event_id], and changes nothing in the session.  When the
    [event_id] is absent the pong is sent without one. *)
Theorem ping_is_answered
    (acc : value -> bool) (ws : nat) (data pe id : value) (s : Session) :
  get_prop data "type" = Ok (VStr "ping") ->
  get_prop data "ping_event" = Ok pe ->
  get_prop pe "event_id" = Ok id ->
  readyState_of ws s = OPEN ->
  step acc (SocketMessage ws (Text data)) s
  = (s, [WsSend ws (if is_undefined id then VObj [("type", VStr "pong")]
                    else pong id)]).
Proof.
  intros Hty H1 H2 Ho. unfold step. cbn [enabled]. rewrite Ho. cbn [is_OPEN].
  unfold deliver, onmessage, JSON_parse, ws_send, JSON_stringify.
  unfold_monad. rewrite Hty. cbn. rewrite H1. cbn. rewrite H2. cbn.
  rewrite Ho. cbn. by destruct (is_undefined id).
Qed.

Lemma ping_is_answered_witness :
  let data := VObj [("type", VStr "ping");
                    ("ping_event", VObj [("event_id", VNum 42);
                                         ("ping_ms", VNum 15)])] in
  get_prop data "type" = Ok (VStr "ping")
  /\ readyState_of 0 active_session = OPEN
  /\ step accepts_ws_urls (SocketMessage 0 (Text data)) active_session
     = (active_session, [WsSend 0 (pong (VNum 42))]).
Proof.
  split; [reflexivity|]. split; [reflexivity|].
  exact (ping_is_answered accepts_ws_urls 0
           (VObj [("type", VStr "ping");
                  ("ping_event", VObj [("event_id", VNum 42);
                                       ("ping_ms", VNum 15)])])
           (VObj [("event_id", VNum 42); ("ping_ms", VNum 15)])
           (VNum 42) active_session eq_refl eq_refl eq_refl eq_refl).
Defined.



(** ** The two sides of a session do not interfere *)

Ltac walk_unfolded side :=
  unfold_callbacks; unfold maybePlayNextAudio, audio_play;
  keeps_walk ltac:(fail) side.

Lemma deliver_keeps_connection acc c ev :
  is_media_event ev = true ->
  keeps (same_connection c) media_effect (deliver acc ev).
Proof.
  intros H. destruct ev; try discriminate H;
    walk_unfolded ltac:(first
      [ exact I
      | let s0 := fresh "s" in let H0 := fresh "H" in
        intros s0 H0; exact H0 ]).
Qed.

(** Frames, the text fallback, playback and the microphone never act on
    the connection: through any sequence of such events the handle, both
    flags and every socket stay exactly as they were, no request for a
    signed URL is made, no socket is created or closed and capture is
    neither started nor stopped. *)
Theorem media_events_keep_connection
    (acc : value -> bool) (evs : list Event) (s : Session) :
  Forall (fun ev => is_media_event ev = true) evs ->
  connection (fst (run acc evs s)) = connection s
  /\ Forall media_effect (snd (run acc evs s)).
Proof.
  intros Hall.
  apply (run_keeps (same_connection (connection s)) media_effect acc
           is_media_event); try done.
  intros ev s0 Ha H0 _. by apply deliver_keeps_connection.
Qed.

Lemma media_events_keep_connection_witness :
  let evs := [CallSendTextMessage (VStr "hello");
              SocketMessage 0 (audio_frame (VStr "QUFB"));
              TtsSettled (Resolved (VObj [("audio", VStr "QkJC")]));
              MicFrame "AAAA"; AudioEnded 0; PlayRejected 1] in
  Forall (fun ev => is_media_event ev = true) evs
  /\ connection (fst (run accepts_ws_urls evs active_session))
     = connection active_session.
Proof.
  split; [by repeat constructor|].
  exact (proj1 (media_events_keep_connection accepts_ws_urls _ active_session
                  ltac:(by repeat constructor))).
Defined.

Lemma deliver_keeps_playback acc p ev :
  is_connection_event ev = true ->
  keeps (same_playback p) connection_effect (deliver acc ev).
Proof.
  intros H. destruct ev; try discriminate H;
    walk_unfolded ltac:(first
      [ exact I
      | let s0 := fresh "s" in let H0 := fresh "H" in
        intros s0 H0; exact H0 ]).
Qed.

(** Starting, connecting, stopping and closing never act on the media
    side: the log, the queue, the audio elements and the playing flag
    stay exactly as they were and no playback is started.  In particular
    [stopConversation] neither empties the queue nor clears the flag, so
    audio that is playing or queued at a stop is still played. *)
Theorem connection_events_keep_playback
    (acc : value -> bool) (evs : list Event) (s : Session) :
  Forall (fun ev => is_connection_event ev = true) evs ->
  playback (fst (run acc evs s)) = playback s
  /\ Forall connection_effect (snd (run acc evs s)).
Proof.
  intros Hall.
  apply (run_keeps (same_playback (playback s)) connection_effect acc
           is_connection_event); try done.
  intros ev s0 Ha H0 _. by apply deliver_keeps_playback.
Qed.

Lemma connection_events_keep_playback_witness :
  let s := fst (run accepts_ws_urls
                  [SocketMessage 0 (audio_frame (VStr "QUFB"));
                   SocketMessage 0 (audio_frame (VStr "QkJC"))]
                  active_session) in
  let evs := [CallStopConversation; SocketClose 0; CallStartConversation] in
  Forall (fun ev => is_connection_event ev = true) evs
  /\ audioQueueRef s = [VStr "QkJC"]
  /\ playback (fst (run accepts_ws_urls evs s)) = playback s.
Proof.
  split; [by repeat constructor|]. split; [reflexivity|].
  exact (proj1 (connection_events_keep_playback accepts_ws_urls
    [CallStopConversation; SocketClose 0; CallStartConversation]
    (fst (run accepts_ws_urls
            [SocketMessage 0 (audio_frame (VStr "QUFB"));
             SocketMessage 0 (audio_frame (VStr "QkJC"))] active_session))
    ltac:(by repeat constructor))).
Defined.

(** ** The Message log *)

Lemma deliver_keeps_log_prefix acc m0 ev :
  keeps (log_extends m0) any_effect (deliver acc ev).
Proof.
  destruct ev;
    walk_unfolded ltac:(first
      [ exact I
      | let s0 := fresh "s" in let H0 := fresh "H" in
        intros s0 H0;
        first
          [ exact H0
          | destruct H0 as [l H0]; eexists (l ++ [_]); cbn;
            rewrite H0, app_assoc; reflexivity ] ]).
Qed.

(** The Message log is append-only: whatever events a session goes
    through, in whatever order, the log it had is a prefix of the log it
    has; no callback removes, rewrites or reorders an entry. *)
Theorem log_is_append_only
    (acc : value -> bool) (evs : list Event) (s : Session) :
  exists l, messages (fst (run acc evs s)) = messages s ++ l.
Proof.
  apply (run_keeps (log_extends (messages s)) any_effect acc (fun _ => true)).
  - by intros.
  - intros ev s0 _ H0 _. by apply deliver_keeps_log_prefix.
  - apply Forall_forall. by intros.
  - exists []. by rewrite app_nil_r.
Qed.

Ltac truthy_side :=
  first
    [ exact I
    | let s0 := fresh "s" in let H0 := fresh "H" in
      intros s0 H0;
      first
        [ exact H0
        | apply Forall_app; split; [exact H0|];
          constructor; [|constructor]; cbn;
          first
            [ reflexivity | assumption
            | match goal with
              | H : negb (truthy ?t) = false |- truthy ?t = true =>
                  by apply negb_false_iff
              end ] ] ].

Lemma deliver_keeps_log_truthy acc ev :
  keeps log_truthy any_effect (deliver acc ev).
Proof.
  destruct ev; unfold_callbacks; unfold maybePlayNextAudio, audio_play;
    repeat first
      [ apply keeps_ret | apply keeps_throw | apply keeps_lift
      | apply keeps_gets
      | apply keeps_bind | apply keeps_try_catch
      | apply keeps_modify; [solve [truthy_side]]
      | apply keeps_emit; [solve [truthy_side]]
      | progress intros
      | match goal with
        | |- keeps _ _ (match ?x with _ => _ end) => destruct x eqn:?
        end ].
Qed.

(** No entry with a falsy text ever enters the Message log: transcripts
    and responses are appended only when truthy, [sendTextMessage]
    returns early on a falsy text, and the two fixed agent entries are
    not empty.  A log without such entries stays without them through
    every sequence of events. *)
Theorem log_has_no_empty_entry
    (acc : value -> bool) (evs : list Event) (s : Session) :
  log_truthy s -> log_truthy (fst (run acc evs s)).
Proof.
  intros H.
  apply (run_keeps log_truthy any_effect acc (fun _ => true)); try done.
  - intros ev s0 _ H0 _. by apply deliver_keeps_log_truthy.
  - apply Forall_forall. by intros.
Qed.

Lemma log_has_no_empty_entry_witness :
  log_truthy init
  /\ log_truthy (fst (run accepts_ws_urls
       (connect ++ [SocketMessage 0 (user_transcript_frame (VStr ""));
                    SocketMessage 0 (agent_response_frame (VStr "hello"));
                    CallSendTextMessage (VStr "")]) init)).
Proof.
  split; [constructor|].
  exact (log_has_no_empty_entry accepts_ws_urls _ init
           ltac:(constructor)).
Defined.

(** ** Connecting *)

Lemma step_open acc ws s :
  readyState_of ws s = CONNECTING ->
  step acc (SocketOpen ws) s
  = (with_pendingStartStreaming S
       (with_isConnected true (set_readyState ws OPEN s)),
     [WsSend ws initiation; StartStreaming]).
Proof.
  intros H.
  assert (ws < length (sockets s))%nat as Hlt
    by (apply readyState_of_live; by rewrite H).
  unfold step. cbn [enabled]. rewrite H. cbn [is_CONNECTING].
  unfold deliver, onopen, ws_send, setIsConnected, startStreaming_call,
    JSON_stringify.
  unfold_monad. cbn.
  rewrite (readyState_of_sockets ws
             (with_isConnected true (set_readyState ws OPEN s))
             (set_readyState ws OPEN s)) by reflexivity.
  by rewrite readyState_of_set_same.
Qed.

Lemma step_streaming_settled acc (ok : bool) s :
  pendingStartStreaming s <> 0%nat ->
  step acc (StartStreamingSettled ok) s
  = if ok then
      (with_isRecording true (with_pendingStartStreaming Nat.pred s), [])
    else (with_pendingStartStreaming Nat.pred s, [Uncaught CaptureFailed]).
Proof.
  intros H. unfold step. cbn [enabled].
  destruct (Nat.eqb_spec (pendingStartStreaming s) 0) as [E|_]; [done|].
  by destruct ok.
Qed.

Lemma step_start_call acc s :
  step acc CallStartConversation s
  = if isConnected s then (s, [])
    else (with_pendingSignedUrl S s, [HttpGet "/api/signed-url"]).
Proof.
  unfold step. cbn [enabled deliver]. unfold startConversation.
  unfold_monad. by destruct (isConnected s).
Qed.

Lemma step_signed_url_connects acc data u s :
  pendingSignedUrl s <> 0%nat ->
  get_prop data "signedUrl" = Ok u -> truthy u = true -> acc u = true ->
  step acc (SignedUrlSettled (Resolved data)) s
  = (with_websocketRef (Some (length (sockets s)))
       (with_sockets (fun l => l ++ [mkWebSocket u CONNECTING])
          (with_pendingSignedUrl Nat.pred s)),
     [NewWebSocket (length (sockets s)) u]).
Proof.
  intros Hp Hu Ht Ha. unfold step. cbn [enabled].
  destruct (Nat.eqb_spec (pendingSignedUrl s) 0) as [E|_]; [done|].
  cbn [negb deliver]. unfold bind at 1. unfold modify at 1.
  by rewrite (startConversation_resumed_connects acc data u _ Hu Ht Ha).
Qed.

Lemma readyState_of_new u st s s' :
  sockets s' = sockets s ++ [mkWebSocket u st] ->
  readyState_of (length (sockets s)) s' = st.
Proof.
  intros H. unfold readyState_of. rewrite H.
  by rewrite list_lookup_middle.
Qed.



(** From any session that is not connected, a start whose request
    resolves with a truthy URL the socket constructor accepts, followed
    by the opening of the new socket and the resolution of
    [startStreaming()], makes the channel Active: the new socket is held
    and open, both flags are set, and the effects are, in this order, the
    request, the socket, the initiation message and the capture start.
    The media side is untouched. *)
Theorem start_reaches_active
    (acc : value -> bool) (s : Session) (data u : value) :
  isConnected s = false ->
  get_prop data "signedUrl" = Ok u -> truthy u = true -> acc u = true ->
  let k := length (sockets s) in
  let evs := [CallStartConversation; SignedUrlSettled (Resolved data);
              SocketOpen k; StartStreamingSettled true] in
  let s' := fst (run acc evs s) in
  snd (run acc evs s)
  = [HttpGet "/api/signed-url"; NewWebSocket k u; WsSend k initiation;
     StartStreaming]
  /\ websocketRef s' = Some k
  /\ readyState_of k s' = OPEN
  /\ socket_active s' = true
  /\ isConnected s' = true
  /\ isRecording s' = true
  /\ length (sockets s') = S k
  /\ pendingSignedUrl s' = pendingSignedUrl s
  /\ playback s' = playback s.
Proof.
  intros Hc Hu Ht Ha k evs s'.
  set (s1 := with_pendingSignedUrl S s).
  assert (step acc CallStartConversation s
          = (s1, [HttpGet "/api/signed-url"])) as E1
    by (rewrite step_start_call; by rewrite Hc).
  set (s2 := with_websocketRef (Some k)
               (with_sockets (fun l => l ++ [mkWebSocket u CONNECTING])
                  (with_pendingSignedUrl Nat.pred s1))).
  assert (step acc (SignedUrlSettled (Resolved data)) s1
          = (s2, [NewWebSocket k u])) as E2
    by (by rewrite (step_signed_url_connects acc data u s1)).
  assert (readyState_of k s2 = CONNECTING) as Hk2
    by (by apply (readyState_of_new u CONNECTING s s2)).
  set (s3 := with_pendingStartStreaming S
               (with_isConnected true (set_readyState k OPEN s2))).
  assert (step acc (SocketOpen k) s2
          = (s3, [WsSend k initiation; StartStreaming])) as E3
    by (by rewrite step_open).
  set (s4 := with_isRecording true (with_pendingStartStreaming Nat.pred s3)).
  assert (step acc (StartStreamingSettled true) s3 = (s4, [])) as E4
    by (by rewrite step_streaming_settled).
  assert (run acc evs s
          = (s4, [HttpGet "/api/signed-url"; NewWebSocket k u;
                  WsSend k initiation; StartStreaming])) as E.
  { unfold evs.
    rewrite run_cons, E1. cbn [fst snd].
    rewrite run_cons, E2. cbn [fst snd].
    rewrite run_cons, E3. cbn [fst snd].
    rewrite run_cons, E4. cbn [fst snd]. reflexivity. }
  assert (k < length (sockets s2))%nat as Hlt
    by (apply readyState_of_live; by rewrite Hk2).
  assert (readyState_of k s4 = OPEN) as Ho.
  { rewrite (readyState_of_sockets k s4 (set_readyState k OPEN s2))
      by reflexivity.
    by apply readyState_of_set_same. }
  unfold s'. rewrite E. cbn [fst snd].
  split; [done|]. split; [done|]. split; [done|]. split.
  { unfold socket_active.
    change (websocketRef s4) with (Some k). cbv iota beta. by rewrite Ho. }
  split; [done|]. split; [done|]. split.
  { change (sockets s4)
      with (sockets (set_readyState k OPEN s2)).
    unfold set_readyState. cbn.
    destruct ((sockets s ++ [mkWebSocket u CONNECTING]) !! k);
      rewrite ?length_insert, length_app; cbn; unfold k; lia. }
  split; [|done]. by destruct s.
Qed.

Lemma start_reaches_active_witness :
  isConnected init = false
  /\ get_prop signed_url_body "signedUrl"
     = Ok (VStr "wss://api.elevenlabs.io/v1/convai/conversation")
  /\ accepts_ws_urls (VStr "wss://api.elevenlabs.io/v1/convai/conversation")
     = true
  /\ socket_active (fst (run accepts_ws_urls connect init)) = true.
Proof.
  split; [reflexivity|]. split; [reflexivity|]. split; [reflexivity|].
  exact (proj1 (proj2 (proj2 (proj2 (start_reaches_active accepts_ws_urls init
    signed_url_body (VStr "wss://api.elevenlabs.io/v1/convai/conversation")
    eq_refl eq_refl eq_refl eq_refl))))).
Defined.

(** [startConversation] is guarded by [isConnected] alone, which only
    [ws.onopen] sets.  A call on a connected session does nothing; but
    two calls made before any socket has opened both issue their request
    and, when both resolve, two sockets exist, both connecting, and the
    handle refers to the later one. *)
Theorem start_guard_covers_open_sockets_only
    (acc : value -> bool) (s : Session) (d1 d2 u1 u2 : value) :
  isConnected s = false ->
  get_prop d1 "signedUrl" = Ok u1 -> truthy u1 = true -> acc u1 = true ->
  get_prop d2 "signedUrl" = Ok u2 -> truthy u2 = true -> acc u2 = true ->
  let k := length (sockets s) in
  let evs := [CallStartConversation; CallStartConversation;
              SignedUrlSettled (Resolved d1); SignedUrlSettled (Resolved d2)] in
  let s' := fst (run acc evs s) in
  snd (run acc evs s)
  = [HttpGet "/api/signed-url"; HttpGet "/api/signed-url";
     NewWebSocket k u1; NewWebSocket (S k) u2]
  /\ sockets s'
     = sockets s ++ [mkWebSocket u1 CONNECTING; mkWebSocket u2 CONNECTING]
  /\ websocketRef s' = Some (S k)
  /\ (forall s0, isConnected s0 = true ->
        step acc CallStartConversation s0 = (s0, [])).
Proof.
  intros Hc H1 T1 A1 H2 T2 A2 k evs s'.
  set (s1 := with_pendingSignedUrl S s).
  assert (step acc CallStartConversation s
          = (s1, [HttpGet "/api/signed-url"])) as E1
    by (rewrite step_start_call; by rewrite Hc).
  set (s2 := with_pendingSignedUrl S s1).
  assert (step acc CallStartConversation s1
          = (s2, [HttpGet "/api/signed-url"])) as E2
    by (rewrite step_start_call; cbn; by rewrite Hc).
  pose proof (step_signed_url_connects acc d1 u1 s2 ltac:(done) H1 T1 A1) as E3.
  set (s3 := with_websocketRef (Some (length (sockets s2)))
               (with_sockets (fun l => l ++ [mkWebSocket u1 CONNECTING])
                  (with_pendingSignedUrl Nat.pred s2))) in *.
  pose proof (step_signed_url_connects acc d2 u2 s3 ltac:(done) H2 T2 A2) as E4.
  set (s4 := with_websocketRef (Some (length (sockets s3)))
               (with_sockets (fun l => l ++ [mkWebSocket u2 CONNECTING])
                  (with_pendingSignedUrl Nat.pred s3))) in *.
  assert (length (sockets s3) = S k) as L3
    by (cbn; rewrite length_app; cbn; unfold k; lia).
  assert (run acc evs s
          = (s4, [HttpGet "/api/signed-url"; HttpGet "/api/signed-url";
                  NewWebSocket k u1; NewWebSocket (S k) u2])) as E.
  { unfold evs.
    rewrite run_cons, E1. cbn [fst snd].
    rewrite run_cons, E2. cbn [fst snd].
    rewrite run_cons, E3. cbn [fst snd].
    rewrite run_cons, E4. cbn [fst snd]. by rewrite L3. }
  unfold s'. rewrite E. cbn [fst snd].
  split; [done|]. split; [cbn; by rewrite <- app_assoc|].
  split; [cbn [s4 websocketRef with_websocketRef]; by rewrite L3|].
  intros s0 H0. rewrite step_start_call. by rewrite H0.
Qed.

Lemma start_guard_covers_open_sockets_only_witness :
  isConnected init = false
  /\ length (sockets (fst (run accepts_ws_urls
       [CallStartConversation; CallStartConversation;
        SignedUrlSettled (Resolved signed_url_body);
        SignedUrlSettled (Resolved signed_url_body)] init))) = 2%nat.
Proof.
  split; [reflexivity|].
  rewrite (proj1 (proj2 (start_guard_covers_open_sockets_only accepts_ws_urls
    init signed_url_body signed_url_body
    (VStr "wss://api.elevenlabs.io/v1/convai/conversation")
    (VStr "wss://api.elevenlabs.io/v1/convai/conversation")
    eq_refl eq_refl eq_refl eq_refl eq_refl eq_refl eq_refl))).
  reflexivity.
Defined.

(** ** The initiation message comes first *)

Lemma readyState_of_set_not_open w w' st s :
  is_OPEN st = false ->
  is_OPEN (readyState_of w (set_readyState w' st s)) = true ->
  is_OPEN (readyState_of w s) = true.
Proof.
  intros Hst H. destruct (decide (w' = w)) as [->|Hne].
  - destruct (decide (w < length (sockets s))%nat) as [Hlt|Hge].
    + rewrite readyState_of_set_same in H by done. by rewrite Hst in H.
    + assert (sockets s !! w = None) as Hn by (apply lookup_ge_None_2; lia).
      unfold readyState_of, set_readyState in *. cbn in H.
      by rewrite !Hn in H.
  - by rewrite readyState_of_set_other in H.
Qed.

Section OnlyOpen.
Variable O : nat -> Prop.

Lemma keeps_ws_send ws frame :
  keeps (only_open O) (sends_within O) (ws_send ws frame).
Proof.
  intros s H. unfold ws_send. unfold_monad.
  destruct (readyState_of ws s) eqn:E; cbn; split; try done.
  repeat constructor. cbn. apply H. by rewrite E.
Qed.

Lemma only_open_set w st s :
  is_OPEN st = false -> only_open O s -> only_open O (set_readyState w st s).
Proof.
  intros Hst H w' Hw'. apply H. by eapply readyState_of_set_not_open.
Qed.

Lemma keeps_ws_close ws :
  keeps (only_open O) (sends_within O) (ws_close ws).
Proof.
  intros s H. unfold ws_close. unfold_monad.
  destruct (readyState_of ws s) eqn:E; cbn; split; try done;
    try (by apply only_open_set); by repeat constructor.
Qed.

Lemma keeps_new_WebSocket acc u :
  keeps (only_open O) (sends_within O) (new_WebSocket acc u).
Proof.
  intros s H. unfold new_WebSocket. unfold_monad.
  destruct (acc u); cbn; [|by split].
  split; [|by repeat constructor].
  intros w Hw. apply H. unfold readyState_of in *. cbn in Hw.
  destruct (decide (w < length (sockets s))%nat) as [Hlt|Hge].
  - by rewrite lookup_app_l in Hw.
  - destruct (decide (w = length (sockets s))) as [->|Hne].
    + by rewrite list_lookup_middle in Hw.
    + rewrite lookup_ge_None_2 in Hw; [done|].
      rewrite length_app. cbn. lia.
Qed.

Lemma deliver_keeps_only_open acc ev :
  is_SocketOpen ev = false ->
  keeps (only_open O) (sends_within O) (deliver acc ev).
Proof.
  intros Hev. destruct ev; try discriminate Hev;
    unfold deliver, startConversation, startConversation_resumed,
      stopConversation, sendTextMessage, sendTextMessage_resumed, await,
      onopen_resumed, onmessage, onclose, onAudioChunked,
      audio_onended, audio_play_catch, audioQueue_push,
      stopStreaming, console_error,
      setMessages_append, setIsRecording, setIsConnected,
      maybePlayNextAudio, audio_play;
    cbv zeta;
    keeps_walk
      ltac:(first [ apply keeps_ws_send | apply keeps_ws_close
                  | apply keeps_new_WebSocket ])
      ltac:(first
        [ exact I
        | let s0 := fresh "s" in let H0 := fresh "H" in
          intros s0 H0;
          first [ exact H0 | by apply only_open_set ] ]).
Qed.
End OnlyOpen.

Lemma sends_on_app w t1 t2 :
  sends_on w (t1 ++ t2) = sends_on w t1 ++ sends_on w t2.
Proof. unfold sends_on. apply omap_app. Qed.

Lemma sends_within_none (O : nat -> Prop) w t :
  Forall (sends_within O) t -> ~ O w -> sends_on w t = [].
Proof.
  intros H Hw. induction H as [|e t He Ht IH]; [done|].
  unfold sends_on in *. cbn. rewrite IH.
  destruct e; try done. cbn in He.
  destruct (Nat.eqb_spec ws w) as [->|Hne]; [by destruct Hw | done].
Qed.

Lemma step_initiation_first acc ev s t0 :
  initiation_first s t0 ->
  initiation_first (fst (step acc ev s)) (t0 ++ snd (step acc ev s)).
Proof.
  intros Hinv w. specialize (Hinv w). rewrite sends_on_app.
  destruct (sends_on w t0) as [|f rest] eqn:Et0; [|done].
  cbn [app].
  destruct (is_SocketOpen ev) eqn:Hev.
  - destruct ev as [| | | | |ws| | | | | |]; try discriminate Hev.
    unfold step. destruct (enabled (SocketOpen ws) s) eqn:En; [|by cbn].
    cbn [enabled] in En.
    assert (readyState_of ws s = CONNECTING) as Hc
      by (by destruct (readyState_of ws s)).
    pose proof (step_open acc ws s Hc) as E. unfold step in E.
    cbn [enabled] in E. rewrite Hc in E. cbn [is_CONNECTING] in E.
    rewrite E. cbn [fst snd].
    assert (sends_on w [WsSend ws initiation; StartStreaming]
            = if Nat.eqb ws w then [initiation] else []) as ->.
    { unfold sends_on. cbn. by destruct (Nat.eqb ws w). }
    destruct (Nat.eqb_spec ws w) as [->|Hne]; [done|].
    rewrite (readyState_of_sockets w _ (set_readyState ws OPEN s))
      by reflexivity.
    by rewrite readyState_of_set_other.
  - set (O := fun w' => is_OPEN (readyState_of w' s) = true).
    assert (only_open O (fst (step acc ev s))
            /\ Forall (sends_within O) (snd (step acc ev s))) as [H1 H2].
    { apply (step_keeps (only_open O) (sends_within O) acc
               (fun ev => negb (is_SocketOpen ev))).
      - by intros.
      - intros ev0 s0 Ha H0 _. apply deliver_keeps_only_open; [|done].
        by apply negb_true_iff.
      - cbn. by rewrite Hev.
      - by intros w' Hw'. }
    assert (~ O w) as HnO by (unfold O; by rewrite Hinv).
    rewrite (sends_within_none O w _ H2 HnO).
    destruct (is_OPEN (readyState_of w (fst (step acc ev s)))) eqn:Eo; [|done].
    by destruct HnO, (H1 w Eo).
Qed.

Lemma run_initiation_first acc evs s t0 :
  initiation_first s t0 ->
  initiation_first (fst (run acc evs s)) (t0 ++ snd (run acc evs s)).
Proof.
  revert s t0. induction evs as [|ev evs IH]; intros s t0 H.
  - cbn. by rewrite app_nil_r.
  - rewrite run_cons. cbn [fst snd]. rewrite app_assoc.
    apply IH. by apply step_initiation_first.
Qed.

(** In every run of the hook from a fresh mount, the first frame sent on
    any socket is the initiation message: no pong and no audio chunk
    ever precedes it, and a socket on which nothing has been sent is not
    open. *)
Theorem initiation_is_first_frame (acc : value -> bool) (evs : list Event) :
  initiation_first (fst (run acc evs init)) (snd (run acc evs init)).
Proof.
  apply (run_initiation_first acc evs init []).
  intros w. cbn. unfold readyState_of. cbn. by rewrite lookup_nil.
Qed.

(** * Properties of the backend proxy *)

Lemma toString_base64_empty bs : toString_base64 bs = "" <-> bs = [].
Proof.
  split; [|by intros ->].
  destruct bs as [|a [|b [|c rest]]]; [done | | |]; cbn; discriminate.
Qed.

Lemma truthy_base64 bs :
  truthy (VStr (toString_base64 bs)) = negb (bool_decide (bs = [])).
Proof.
  cbn. destruct (String.eqb_spec (toString_base64 bs) "") as [E|E].
  - apply toString_base64_empty in E. by subst.
  - case_bool_decide as Hb; [|done]. subst. by destruct E.
Qed.

Lemma truthy_not_undefined v : truthy v = true -> is_undefined v = false.
Proof. by destruct v. Qed.

Section BackendFacts.
Variable enc : string -> string.

Lemma getSignedUrl_returns_truthy agentId apiKey up u t :
  getSignedUrl enc agentId apiKey up = (Ok u, t) ->
  truthy u = true
  /\ exists data, up = UpOk data /\ truthy data = true
                  /\ u = get_prop_opt data "signed_url".
Proof.
  unfold getSignedUrl. destruct up as [data|m]; [|discriminate].
  destruct (truthy data) eqn:Hd; cbn; [|discriminate].
  destruct (truthy (get_prop_opt data "signed_url")) eqn:Hu; [|discriminate].
  intros [= <- <-]. split; [done|]. by exists data.
Qed.

Lemma signed_url_route_cases (env : Env) (up : Upstream value) :
  (configured (AGENT_ID env) && configured (ELEVENLABS_API_KEY env) = false
   /\ exists m, In m signed_url_messages
        /\ signed_url_route enc env up = (mkHttpResponse 500 (error_body m), []))
  \/ (exists agent key target e,
        configured (AGENT_ID env) = true
        /\ configured (ELEVENLABS_API_KEY env) = true
        /\ ELEVENLABS_API_KEY env = Some key /\ AGENT_ID env = Some agent
        /\ (forall data, up = UpOk data ->
              truthy data && truthy (get_prop_opt data "signed_url") = false)
        /\ signed_url_route enc env up
           = (mkHttpResponse 500 (error_body "Failed to obtain signed URL"),
              [UpstreamGet target key;
               ServerLog "Error getting signed URL:" e]))
  \/ (exists agent key target data,
        configured (AGENT_ID env) = true
        /\ configured (ELEVENLABS_API_KEY env) = true
        /\ ELEVENLABS_API_KEY env = Some key /\ AGENT_ID env = Some agent
        /\ up = UpOk data /\ truthy data = true
        /\ truthy (get_prop_opt data "signed_url") = true
        /\ signed_url_route enc env up
           = (mkHttpResponse 200
                (VObj [("signedUrl", get_prop_opt data "signed_url")]),
              [UpstreamGet target key])).
Proof.
  unfold signed_url_route, configured.
  destruct (AGENT_ID env) as [agent|] eqn:Ea; cbn [env_value].
  2: { left. split; [done|]. eexists. split; [|reflexivity]. cbn. tauto. }
  destruct (truthy (VStr agent)) eqn:Ha; cbn [negb andb].
  2: { left. split; [done|]. eexists. split; [|reflexivity]. cbn. tauto. }
  destruct (ELEVENLABS_API_KEY env) as [key|] eqn:Ek; cbn [env_value].
  2: { left. split; [done|]. eexists. split; [|reflexivity]. cbn. tauto. }
  destruct (truthy (VStr key)) eqn:Hk; cbn [negb andb].
  2: { left. split; [done|]. eexists. split; [|reflexivity]. cbn. tauto. }
  right. unfold getSignedUrl. cbn [default from_option id].
  destruct up as [data|m].
  2: { left. exists agent, key. do 2 eexists.
       do 4 (split; [done|]).
       split; [intros d; discriminate|]. reflexivity. }
  destruct (truthy data && truthy (get_prop_opt data "signed_url")) eqn:Hd.
  - right. apply andb_true_iff in Hd as [Hd Hu].
    exists agent, key. eexists. exists data.
    do 7 (split; [done|]).
    unfold JSON_stringify. cbn. by rewrite (truthy_not_undefined _ Hu).
  - left. exists agent, key. do 2 eexists.
    do 4 (split; [done|]).
    split; [by intros d [= <-]|]. reflexivity.
Qed.

(** [GET /api/signed-url] answers 200 or 500 and nothing else.  It
    answers 200 exactly when both variables are set to non-empty strings
    and the upstream body carries a truthy [signed_url], and then the
    body is that URL under [signedUrl].  Without configuration no
    upstream request is made.  The API key goes only into the upstream
    request: every string of the response body is one of the three fixed
    messages or comes from the upstream [signed_url], so neither the key
    nor the upstream error message can reach the client. *)
Theorem signed_url_route_contract (env : Env) (up : Upstream value) :
  let r := fst (signed_url_route enc env up) in
  let t := snd (signed_url_route enc env up) in
  (statusCode r = 200%nat \/ statusCode r = 500%nat)
  /\ (statusCode r = 200%nat <->
      configured (AGENT_ID env) = true
      /\ configured (ELEVENLABS_API_KEY env) = true
      /\ exists data, up = UpOk data /\ truthy data = true
                      /\ truthy (get_prop_opt data "signed_url") = true)
  /\ (statusCode r = 200%nat ->
      exists data, up = UpOk data
                   /\ json r = VObj [("signedUrl", get_prop_opt data "signed_url")])
  /\ (configured (AGENT_ID env) && configured (ELEVENLABS_API_KEY env) = false ->
      t = [])
  /\ (forall target key, In (UpstreamGet target key) t ->
        ELEVENLABS_API_KEY env = Some key)
  /\ (forall x, In x (strings_of (json r)) ->
        In x signed_url_messages
        \/ exists data, up = UpOk data
                        /\ In x (strings_of (get_prop_opt data "signed_url"))).
Proof.
  intros r t. unfold r, t.
  destruct (signed_url_route_cases env up)
    as [(Hc & m & Hm & ->)
       |[(agent & key & target & e & Ha & Hk & Ek & Ea & Hup & ->)
        |(agent & key & target & data & Ha & Hk & Ek & Ea & -> & Hd & Hu & ->)]];
    cbn [fst snd statusCode json].
  - split; [by right|]. split.
    { split; [discriminate|]. intros (H1 & H2 & _). by rewrite H1, H2 in Hc. }
    split; [discriminate|]. split; [done|]. split; [by intros ? ? []|].
    intros x [<-|[]]. by left.
  - split; [by right|]. split.
    { split; [discriminate|]. intros (_ & _ & d & Hd & H1 & H2).
      specialize (Hup d Hd). by rewrite H1, H2 in Hup. }
    split; [discriminate|]. split; [by rewrite Ha, Hk|]. split.
    { intros tg k [[= _ <-]|[H|[]]]; [done | discriminate H]. }
    intros x [<-|[]]. left. cbn. tauto.
  - split; [by left|]. split.
    { split; [|done]. intros _. split; [done|]. split; [done|]. by exists data. }
    split; [intros _; by exists data|]. split; [by rewrite Ha, Hk|]. split.
    { intros tg k [[= _ <-]|[]]. done. }
    intros x Hx. right. exists data. split; [done|].
    cbn in Hx. by rewrite app_nil_r in Hx.
Qed.

Lemma tts_route_cases (env : Env) (req_body : value) (up : Upstream (list byte)) :
  (configured (ELEVENLABS_API_KEY env) && configured (ELEVENLABS_VOICE_ID env)
     = false
   /\ tts_route enc env req_body up
      = (mkHttpResponse 500 (error_body "Voice ID or API key not configured"),
         []))
  \/ (configured (ELEVENLABS_API_KEY env) && configured (ELEVENLABS_VOICE_ID env)
        = true
      /\ ((exists e, get_prop req_body "text" = Thrown e
             /\ tts_route enc env req_body up
                = (mkHttpResponse 500 (error_body "Failed to generate speech"),
                   [ServerLog "Error generating TTS:" e]))
          \/ (exists text, get_prop req_body "text" = Ok text
                /\ truthy text && is_string text = false
                /\ tts_route enc env req_body up
                   = (mkHttpResponse 400 (error_body "Invalid or missing text"),
                      []))
          \/ (exists text key voice,
                get_prop req_body "text" = Ok text
                /\ truthy text && is_string text = true
                /\ ELEVENLABS_API_KEY env = Some key
                /\ ELEVENLABS_VOICE_ID env = Some voice
                /\ ((exists m, up = UpErr m
                       /\ tts_route enc env req_body up
                          = (mkHttpResponse 500
                               (error_body "Failed to generate speech"),
                             [tts_request enc voice key text;
                              ServerLog "Error generating TTS:" (Error m)]))
                    \/ (exists bytes, up = UpOk bytes
                          /\ tts_route enc env req_body up
                             = (mkHttpResponse 200
                                  (VObj [("audio", VStr (toString_base64 bytes));
                                         ("format", VStr "mp3")]),
                                [tts_request enc voice key text])))))).
Proof.
  unfold tts_route, configured.
  destruct (ELEVENLABS_API_KEY env) as [key|] eqn:Ek; cbn [env_value];
    [|left; by split].
  destruct (truthy (VStr key)) eqn:Hk; cbn [negb andb orb]; [|left; by split].
  destruct (ELEVENLABS_VOICE_ID env) as [voice|] eqn:Ev; cbn [env_value];
    [|left; by split].
  destruct (truthy (VStr voice)) eqn:Hv; cbn [negb andb orb]; [|left; by split].
  right. split; [done|].
  destruct (get_prop req_body "text") as [text|e] eqn:Ht.
  2: { left. by exists e. }
  right.
  destruct (truthy text) eqn:Htt; cbn [negb andb orb].
  2: { left. exists text. by rewrite ?Htt. }
  destruct (is_string text) eqn:Hs; cbn [negb andb orb].
  2: { left. exists text. by rewrite ?Htt, ?Hs. }
  right. exists text, key, voice. rewrite ?Htt, ?Hs.
  do 4 (split; [done|]).
  unfold textToSpeech, tts_request. cbn.
  destruct up as [bytes|m]; [right; by exists bytes | left; by exists m].
Qed.

(** [POST /api/tts] answers 200, 400 or 500.  The configuration is
    checked before the request body, and the body before anything is
    sent upstream: an upstream request is made exactly when both
    variables are set and [text] is a non-empty string, and then it is
    the single request for that text with the default model, voice
    settings and output format, carrying the configured key.  The answer
    is 400 exactly when the configuration is complete and [text] is
    falsy or not a string, and 200 exactly when the upstream call
    succeeds, with the bytes in base64 under [audio] and the format
    "mp3". *)
Theorem tts_route_contract
    (env : Env) (req_body : value) (up : Upstream (list byte)) :
  let r := fst (tts_route enc env req_body up) in
  let t := snd (tts_route enc env req_body up) in
  let ready :=
    configured (ELEVENLABS_API_KEY env) && configured (ELEVENLABS_VOICE_ID env) in
  (statusCode r = 200%nat \/ statusCode r = 400%nat \/ statusCode r = 500%nat)
  /\ (ready && valid_text req_body = false ->
      List.filter is_upstream_request t = [])
  /\ (ready && valid_text req_body = true ->
      exists text key voice,
        get_prop req_body "text" = Ok text
        /\ ELEVENLABS_API_KEY env = Some key
        /\ ELEVENLABS_VOICE_ID env = Some voice
        /\ List.filter is_upstream_request t = [tts_request enc voice key text])
  /\ (statusCode r = 400%nat <->
      ready = true
      /\ exists text, get_prop req_body "text" = Ok text
                      /\ truthy text && is_string text = false)
  /\ (statusCode r = 200%nat <->
      ready && valid_text req_body = true /\ exists bytes, up = UpOk bytes)
  /\ (forall bytes, statusCode r = 200%nat -> up = UpOk bytes ->
        json r = VObj [("audio", VStr (toString_base64 bytes));
                       ("format", VStr "mp3")]).
Proof.
  intros r t ready. unfold r, t, ready, valid_text.
  destruct (tts_route_cases env req_body up)
    as [(Hc & ->)
       |(Hc & [(e & He & ->)
              |[(text & Ht & Hbad & ->)
               |(text & key & voice & Ht & Hok & Ek & Ev &
                 [(m & -> & ->)|(bytes & -> & ->)])]])];
    rewrite Hc; cbn [fst snd statusCode json andb];
    rewrite ?He, ?Ht, ?Hbad, ?Hok.
  - split; [tauto|]. split; [done|]. split; [discriminate|].
    split; [split; [discriminate | by intros [? _]]|].
    split; [split; [discriminate | by intros [? _]]|]. discriminate.
  - split; [tauto|]. split; [done|]. split; [discriminate|].
    split; [split; [discriminate | by intros [_ (x & ? & _)]]|].
    split; [split; [discriminate | by intros [? _]]|]. discriminate.
  - split; [tauto|]. split; [done|]. split; [discriminate|].
    split; [split; [intros _; split; [done|]; by exists text | done]|].
    split; [split; [discriminate | by intros [? _]]|]. discriminate.
  - split; [tauto|]. split; [discriminate|].
    split; [intros _; by exists text, key, voice|].
    split.
    { split; [discriminate|]. intros [_ (x & [= <-] & Hb)].
      by rewrite Hok in Hb. }
    split; [split; [discriminate | by intros [_ (b & ?)]]|]. discriminate.
  - split; [tauto|]. split; [discriminate|].
    split; [intros _; by exists text, key, voice|].
    split.
    { split; [discriminate|]. intros [_ (x & [= <-] & Hb)].
      by rewrite Hok in Hb. }
    split; [split; [intros _; split; [done|]; by exists bytes | done]|].
    by intros b _ [= <-].
Qed.

(** ** The hook against this backend *)



(** The text fallback against this backend, for the request
    [sendTextMessage] makes with a truthy text: when the backend answers
    200 the upstream call succeeded, and the continuation appends the
    "[audio]" placeholder and hands the base64 of the bytes to the
    sequencer, unless there are no bytes, in which case it does nothing;
    on every other answer (configuration missing, a text that is not a
    string, upstream failure) it appends the failure notice and enqueues
    nothing. *)
Theorem tts_end_to_end
    (env : Env) (text : value) (up : Upstream (list byte)) (s : Session) :
  truthy text = true ->
  let resp := fst (tts_route enc env (JSON_stringify [("text", text)]) up) in
  let out := sendTextMessage_resumed (axios_settles resp) s in
  (statusCode resp = 200%nat
   /\ is_string text = true
   /\ exists bytes, up = UpOk bytes
        /\ out = if bool_decide (bytes = []) then (Ok tt, s, [])
                 else
                   (Ok tt,
                    with_messages (fun l => l ++ [audio_placeholder])
                      (seq_step (Enqueue (VStr (toString_base64 bytes))) s),
                    effects_of
                      (seq_deliver (Enqueue (VStr (toString_base64 bytes)))) s))
  \/ (statusCode resp <> 200%nat
      /\ out = (Ok tt, with_messages (fun l => l ++ [failure_notice]) s,
                [ConsoleError "Failed to perform TTS:" RequestFailed])).
Proof.
  intros Htt resp out. unfold out, resp.
  assert (JSON_stringify [("text", text)] = VObj [("text", text)]) as ->
    by (unfold JSON_stringify; cbn; by rewrite (truthy_not_undefined _ Htt)).
  destruct (tts_route_cases env (VObj [("text", text)]) up)
    as [(Hc & ->)
       |(Hc & [(e & He & ->)
              |[(x & Ht & Hbad & ->)
               |(x & key & voice & Ht & Hok & Ek & Ev &
                 [(m & -> & ->)|(bytes & -> & ->)])]])];
    cbn [fst snd statusCode json];
    try (right; split; [done|]; reflexivity).
  cbn in Ht. injection Ht as <-.
  apply andb_true_iff in Hok as [_ Hs].
  left. split; [done|]. split; [done|]. exists bytes. split; [done|].
  change (axios_settles _)
    with (Resolved (VObj [("audio", VStr (toString_base64 bytes));
                          ("format", VStr "mp3")])).
  pose proof (truthy_base64 bytes) as Hb.
  case_bool_decide as Hnil; cbn [negb] in Hb.
  - exact (sendTextMessage_resumed_no_audio
             (VObj [("audio", VStr (toString_base64 bytes));
                    ("format", VStr "mp3")])
             (VStr (toString_base64 bytes)) s eq_refl Hb).
  - exact (sendTextMessage_resumed_audio
             (VObj [("audio", VStr (toString_base64 bytes));
                    ("format", VStr "mp3")])
             (VStr (toString_base64 bytes)) s eq_refl Hb).
Qed.

End BackendFacts.

Lemma signed_url_route_contract_witness :
  let env := mkEnv (Some "agent_1") (Some "sk_secret") None in
  let up := UpOk (VObj [("signed_url", VStr "wss://api.elevenlabs.io/c?t=1")]) in
  statusCode (fst (signed_url_route id env up)) = 200%nat
  /\ json (fst (signed_url_route id env up))
     = VObj [("signedUrl", VStr "wss://api.elevenlabs.io/c?t=1")]
  /\ ~ In "sk_secret" (strings_of (json (fst (signed_url_route id env up)))).
Proof.
  split; [reflexivity|]. split; [reflexivity|].
  intros H.
  destruct (proj2 (proj2 (proj2 (proj2 (proj2
    (signed_url_route_contract id
       (mkEnv (Some "agent_1") (Some "sk_secret") None)
       (UpOk (VObj [("signed_url", VStr "wss://api.elevenlabs.io/c?t=1")])))))))
    "sk_secret" H) as [Hm|(data & [= <-] & Hd)].
  - cbn in Hm. intuition discriminate.
  - cbn in Hd. intuition discriminate.
Defined.

Lemma tts_route_contract_witness :
  let env := mkEnv None (Some "sk_secret") (Some "voice_1") in
  let req := VObj [("text", VNum 5)] in
  configured (ELEVENLABS_API_KEY env) && configured (ELEVENLABS_VOICE_ID env)
    && valid_text req = false
  /\ List.filter is_upstream_request (snd (tts_route id env req (UpOk []))) = [].
Proof.
  split; [reflexivity|].
  exact (proj1 (proj2 (tts_route_contract id
    (mkEnv None (Some "sk_secret") (Some "voice_1"))
    (VObj [("text", VNum 5)]) (UpOk []))) eq_refl).
Defined.

Lemma tts_end_to_end_witness :
  let env := mkEnv None (Some "sk_secret") (Some "voice_1") in
  truthy (VStr "hello") = true
  /\ messages (state_after
       (sendTextMessage_resumed
          (axios_settles
             (fst (tts_route id env (JSON_stringify [("text", VStr "hello")])
                     (UpOk ["M"%byte; "a"%byte; "n"%byte]))))) init)
     = [audio_placeholder].
Proof.
  split; [reflexivity|].
  destruct (tts_end_to_end id (mkEnv None (Some "sk_secret") (Some "voice_1"))
              (VStr "hello") (UpOk ["M"%byte; "a"%byte; "n"%byte]) init eq_refl)
    as [(_ & _ & bytes & [= <-] & E)|(Hne & _)].
  - unfold state_after. rewrite E. reflexivity.
  - by destruct Hne.
Defined.

(** * Properties of the Chat component *)

Lemma startConversation_of_render_current s :
  startConversation s = startConversation_of_render (isConnected s) s.
Proof.
  unfold startConversation, startConversation_of_render. unfold_monad.
  by destruct (isConnected s).
Qed.

(** Submitting the form sends the trimmed input, never the raw one.  An
    input that trims to the empty string sends nothing, changes nothing
    and is left in the box.  Any other input appends exactly one user
    message carrying the trimmed text, posts that text to the synthesis
    route and clears the box; the early return of [sendTextMessage] is
    never taken from the form. *)
Theorem handleSubmit_contract (trim : string -> string) (c : ChatState) :
  handleSubmit trim c
  = if String.eqb (trim (textInput c)) "" then (c, [PreventDefault])
    else
      (mkChat
         (with_pendingTts S
            (with_messages
               (fun l => l ++ [user_message (VStr (trim (textInput c)))])
               (hook c)))
         "" (audioStream c) (streams c),
       [PreventDefault;
        FromHook (HttpPost "/api/tts"
                    (VObj [("text", VStr (trim (textInput c)))]))]).
Proof.
  unfold handleSubmit, call_hook. cbn [truthy].
  destruct (String.eqb (trim (textInput c)) "") eqn:E; cbn [negb]; [done|].
  rewrite sendTextMessage_truthy by (cbn; by rewrite E). reflexivity.
Qed.

(** A click on the button while recording stops the conversation at
    once: the hook is left Idle, [stopStreaming()] is called, the tracks
    of the stream kept for the visualizer are stopped and the stream is
    dropped; the log and the playback side are untouched. *)
Theorem stop_click_releases (c : ChatState) :
  isRecording (hook c) = true ->
  let c' := fst (handleToggleRecording c) in
  let t := snd (handleToggleRecording c) in
  idle (hook c')
  /\ audioStream c' = None
  /\ In (FromHook StopStreaming) t
  /\ (forall k, audioStream c = Some k ->
        In (TracksStopped k) t
        /\ ((k < length (streams c))%nat -> streams c' !! k = Some false))
  /\ playback (hook c') = playback (hook c)
  /\ textInput c' = textInput c.
Proof.
  intros Hr c' t. unfold c', t, handleToggleRecording, call_hook.
  rewrite Hr.
  destruct (stopConversation_leaves_idle (hook c)) as [_ Hidle].
  assert (In StopStreaming (effects_of stopConversation (hook c))
          /\ playback (state_after stopConversation (hook c))
             = playback (hook c)) as [Hs Hp].
  { unfold effects_of, state_after. destruct (socket_active (hook c)) eqn:Ea.
    - unfold socket_active in Ea.
      destruct (websocketRef (hook c)) as [w|] eqn:Ew; [|done].
      rewrite (stopConversation_open _ w Ew)
        by (by destruct (readyState_of w (hook c))).
      cbn. tauto.
    - rewrite (stopConversation_not_open _ Ea). cbn. tauto. }
  unfold state_after, effects_of in *.
  destruct (stopConversation (hook c)) as [[r s1] t1]. cbn in *.
  destruct (audioStream c) as [k|] eqn:Ek; cbn.
  - split; [done|]. split; [done|]. split.
    { apply in_or_app. left. by apply in_map. }
    split; [|done]. intros k' [= <-]. split.
    + apply in_or_app. right. cbn. tauto.
    + intros Hlt. by apply list_lookup_insert_eq.
  - split; [done|]. split; [done|]. split; [by apply in_map|].
    split; [|done]. by intros k' [=].
Qed.

Lemma stop_click_releases_witness :
  let c := mkChat active_session "" (Some 0%nat) [true] in
  isRecording (hook c) = true
  /\ idle (hook (fst (handleToggleRecording c)))
  /\ streams (fst (handleToggleRecording c)) = [false].
Proof.
  split; [reflexivity|].
  split; [|reflexivity].
  exact (proj1 (stop_click_releases
                  (mkChat active_session "" (Some 0%nat) [true]) eq_refl)).
Defined.

(** A click while not recording only asks for the microphone.  Once
    that request has settled, granted or denied, [startConversation]
    runs all the same: a denial is logged and does not keep the
    conversation from starting.  A granted stream replaces the one kept
    before without stopping its tracks. *)
Theorem talk_click_starts_regardless (granted : bool) (c : ChatState) :
  isRecording (hook c) = false ->
  let c' := fst (handleToggleRecording_resumed granted false c) in
  let t := snd (handleToggleRecording_resumed granted false c) in
  handleToggleRecording c = (c, [GetUserMedia])
  /\ hook c' = with_pendingSignedUrl S (hook c)
  /\ t = (if granted then []
          else [ChatConsoleError "Microphone access denied:"])
         ++ [FromHook (HttpGet "/api/signed-url")]
  /\ audioStream c'
     = (if granted then Some (length (streams c)) else audioStream c)
  /\ (forall k, (k < length (streams c))%nat ->
        streams c' !! k = streams c !! k)
  /\ handleToggleRecording_resumed granted true c
     = (if granted then
          (mkChat (hook c) (textInput c) (Some (length (streams c)))
             (streams c ++ [true]), [])
        else (c, [ChatConsoleError "Microphone access denied:"])).
Proof.
  intros Hr c' t. unfold c', t, handleToggleRecording.
  rewrite Hr. split; [done|].
  unfold handleToggleRecording_resumed, call_hook, startConversation_of_render.
  unfold_monad.
  destruct granted; cbn.
  - split; [done|]. split; [done|]. split; [done|]. split.
    + intros k Hk. by apply lookup_app_l.
    + by destruct c.
  - split; [done|]. split; [done|]. split; [done|]. split; [done|].
    by destruct c.
Qed.

Lemma talk_click_starts_regardless_witness :
  let c := mkChat init "" None [] in
  isRecording (hook c) = false
  /\ snd (handleToggleRecording_resumed false false c)
     = [ChatConsoleError "Microphone access denied:";
        FromHook (HttpGet "/api/signed-url")].
Proof.
  split; [reflexivity|].
  exact (proj1 (proj2 (proj2 (talk_click_starts_regardless false
                  (mkChat init "" None []) eq_refl)))).
Defined.
